(** * Gatekeeper conversation backend ([app.py]): sessions, pump, HTTP handlers

    A shallow embedding of [ConversationSession], [SessionManager] and the
    three FastAPI handlers of [app.py], followed by the properties that the
    design specification states about them.

    Conventions.
    - A Python [str] is a list of Unicode code points ([list N]).
    - A payload dictionary is an association list in insertion order.
    - An [asyncio.Queue] is its list of pending items, oldest first, together
      with a history variable recording everything ever put on it.
    - Every coroutine is cut at its suspension points; what the other tasks of
      the event loop do to the session while a coroutine is suspended is given
      as a list of atomic operations. *)

From Stdlib Require Import List NArith ZArith QArith Bool Ascii String Lia.
From stdpp Require Import base option list gmap.

Import ListNotations.
Local Open Scope list_scope.

(** ** Python strings *)

Abbreviation str := (list N).

(** A literal of the source, as code points. *)
Definition lit (s : string) : str :=
  List.map N_of_ascii (list_ascii_of_string s).

Fixpoint str_eqb (a b : str) : bool :=
  match a, b with
  | [], [] => true
  | x :: a', y :: b' => N.eqb x y && str_eqb a' b'
  | _, _ => false
  end.

(** Truthiness of a string or of a list: [if s:] / [if not s:]. *)
Definition truthy {A} (s : list A) : bool :=
  match s with [] => false | _ :: _ => true end.

Fixpoint startswith (prefix s : str) : bool :=
  match prefix, s with
  | [], _ => true
  | x :: p', y :: s' => N.eqb x y && startswith p' s'
  | _ :: _, [] => false
  end.

(** [needle in s] *)
Fixpoint contains (needle s : str) : bool :=
  startswith needle s
  || match s with
     | [] => false
     | _ :: s' => contains needle s'
     end.

(** [str.isspace] on one code point: the whitespace table of the
    interpreter. *)
Definition isspace (c : N) : bool :=
  ((9 <=? c) && (c <=? 13) || (28 <=? c) && (c <=? 32)
   || (c =? 133) || (c =? 160) || (c =? 5760)
   || (8192 <=? c) && (c <=? 8202)
   || (c =? 8232) || (c =? 8233) || (c =? 8239) || (c =? 8287)
   || (c =? 12288))%N.

Fixpoint lstrip (s : str) : str :=
  match s with
  | [] => []
  | c :: s' => if isspace c then lstrip s' else s
  end.

Definition rstrip (s : str) : str := rev (lstrip (rev s)).

(** [s.strip()] *)
Definition strip (s : str) : str := rstrip (lstrip s).

Definition is_ascii_lower (c : N) : bool := ((97 <=? c) && (c <=? 122))%N.
Definition is_ascii_upper (c : N) : bool := ((65 <=? c) && (c <=? 90))%N.

(** [c] is the letter [m], in upper or in lower case. *)
Definition same_letter (c m : N) : bool :=
  N.eqb c m || (is_ascii_upper m && N.eqb c (m + 32)).

(** [w] spells [marker] in some mix of upper and lower case. *)
Fixpoint is_casing_of (w marker : str) : bool :=
  match w, marker with
  | [], [] => true
  | c :: w', m :: marker' => same_letter c m && is_casing_of w' marker'
  | _, _ => false
  end.

(** ** asyncio.Queue (unbounded) *)

Module Queue.

Record t (A : Type) : Type := Make {
  pending : list A;   (* items waiting, oldest first *)
  put_log : list A    (* history variable: every item ever put, in order *)
}.
Arguments Make {A} _ _.
Arguments pending {A} _.
Arguments put_log {A} _.

Definition empty {A} : t A := Make [] [].

(** [await q.put(x)] / [q.put_nowait(x)]: never full, so never suspends. *)
Definition put {A} (x : A) (q : t A) : t A :=
  Make (pending q ++ [x]) (put_log q ++ [x]).

(** [q.get_nowait()]: [None] stands for [QueueEmpty]. *)
Definition get_nowait {A} (q : t A) : option (A * t A) :=
  match pending q with
  | [] => None
  | x :: rest => Some (x, Make rest (put_log q))
  end.

(** [await q.get()] at the moment it completes: [None] means that the
    caller stays suspended. *)
Definition get {A} (q : t A) : option (A * t A) := get_nowait q.

End Queue.

(** ** Payload dictionaries *)

Abbreviation Payload := (list (str * str)).

Fixpoint dict_get (key : str) (d : Payload) : option str :=
  match d with
  | [] => None
  | (k, v) :: d' => if str_eqb k key then Some v else dict_get key d'
  end.

Definition has_type (ty : string) (p : Payload) : bool :=
  match dict_get (lit "type") p with
  | Some t => str_eqb t (lit ty)
  | None => false
  end.

Definition is_secret (p : Payload) : bool := has_type "secret" p.
Definition is_status (p : Payload) : bool := has_type "status" p.

(** ** Items of the engine's stream *)

Record BaseChatMessage : Type := {
  source : str;
  to_text : str;
  is_MultiModalMessage : bool
}.

Inductive StreamItem : Type :=
| TaskResult (stop_reason : option str)
| Response (chat_message : BaseChatMessage)
| ChatMessage (message : BaseChatMessage)
| UserInputRequestedEvent
| ModelClientStreamingChunkEvent
| BaseAgentEvent (source text : str)
| OtherItem.

(** How the [async for] over the stream stops. *)
Inductive StreamEnd : Type :=
| StopAsyncIteration
| RaisedException (str_exc : str)   (* caught by [except Exception] *)
| RaisedBaseException.              (* e.g. CancelledError: only [finally] runs *)

(** ** ConversationSession *)

Inductive Task : Type := TaskPending | TaskDone.

Record ConversationSession : Type := {
  session_id : str;
  input_queue : Queue.t str;
  output_queue : Queue.t Payload;
  history : list Payload;
  completed : bool;
  termination_detected : bool;
  secret_revealed : bool;
  stop_reason : option str;
  _task : option Task
}.

(** [ConversationSession(session_id=session_id)] *)
Definition new_session (sid : str) : ConversationSession :=
  {| session_id := sid;
     input_queue := Queue.empty;
     output_queue := Queue.empty;
     history := [];
     completed := false;
     termination_detected := false;
     secret_revealed := false;
     stop_reason := None;
     _task := None |}.

Definition set_input_queue (q : Queue.t str) (s : ConversationSession) :=
  {| session_id := session_id s; input_queue := q;
     output_queue := output_queue s; history := history s;
     completed := completed s;
     termination_detected := termination_detected s;
     secret_revealed := secret_revealed s; stop_reason := stop_reason s;
     _task := _task s |}.

Definition set_output_queue (q : Queue.t Payload) (s : ConversationSession) :=
  {| session_id := session_id s; input_queue := input_queue s;
     output_queue := q; history := history s;
     completed := completed s;
     termination_detected := termination_detected s;
     secret_revealed := secret_revealed s; stop_reason := stop_reason s;
     _task := _task s |}.

Definition set_history (h : list Payload) (s : ConversationSession) :=
  {| session_id := session_id s; input_queue := input_queue s;
     output_queue := output_queue s; history := h;
     completed := completed s;
     termination_detected := termination_detected s;
     secret_revealed := secret_revealed s; stop_reason := stop_reason s;
     _task := _task s |}.

Definition set_completed (b : bool) (s : ConversationSession) :=
  {| session_id := session_id s; input_queue := input_queue s;
     output_queue := output_queue s; history := history s;
     completed := b;
     termination_detected := termination_detected s;
     secret_revealed := secret_revealed s; stop_reason := stop_reason s;
     _task := _task s |}.

Definition set_termination_detected (b : bool) (s : ConversationSession) :=
  {| session_id := session_id s; input_queue := input_queue s;
     output_queue := output_queue s; history := history s;
     completed := completed s;
     termination_detected := b;
     secret_revealed := secret_revealed s; stop_reason := stop_reason s;
     _task := _task s |}.

Definition set_secret_revealed (b : bool) (s : ConversationSession) :=
  {| session_id := session_id s; input_queue := input_queue s;
     output_queue := output_queue s; history := history s;
     completed := completed s;
     termination_detected := termination_detected s;
     secret_revealed := b; stop_reason := stop_reason s;
     _task := _task s |}.

Definition set_stop_reason (r : option str) (s : ConversationSession) :=
  {| session_id := session_id s; input_queue := input_queue s;
     output_queue := output_queue s; history := history s;
     completed := completed s;
     termination_detected := termination_detected s;
     secret_revealed := secret_revealed s; stop_reason := r;
     _task := _task s |}.

Definition set_task (t : option Task) (s : ConversationSession) :=
  {| session_id := session_id s; input_queue := input_queue s;
     output_queue := output_queue s; history := history s;
     completed := completed s;
     termination_detected := termination_detected s;
     secret_revealed := secret_revealed s; stop_reason := stop_reason s;
     _task := t |}.

(** ** Deployment constants and the session's methods *)

Definition GREETING_ROLE : str := lit "greeting_assistant".
Definition GREETING_MESSAGE : str := lit "Hello there!".

(** ** Start-up configuration *)

Inductive Loaded (A : Type) : Type :=
| Value (v : A)
| RuntimeError (message : str).
Arguments Value {A} _.
Arguments RuntimeError {A} _.

(** [_load_env_variable]; [environ] is the process environment read by
    [os.getenv]. *)
Definition _load_env_variable (environ : gmap str str) (name : str)
  : Loaded str :=
  let value := environ !! name in
  match value with
  | Some v =>
      if negb (truthy v)
      then RuntimeError (lit "Missing required environment variable: " ++ name)
      else Value v
  | None =>
      RuntimeError (lit "Missing required environment variable: " ++ name)
  end.

(** The two module-level constants [API_KEY] and [SECRET_CODE], in the
    order in which the module computes them; the first failure aborts the
    import. *)
Definition load_constants (environ : gmap str str) : Loaded (str * str) :=
  match _load_env_variable environ (lit "GEMINI_API_KEY") with
  | RuntimeError m => RuntimeError m
  | Value api_key =>
      match _load_env_variable environ (lit "SECRETE_CODE") with
      | RuntimeError m => RuntimeError m
      | Value secret_code => Value (api_key, secret_code)
      end
  end.

(** ** The command-line variant ([AI_yes.py]) *)

Module AI_yes.

Inductive PyValue : Type :=
| PyNone
| PyStr (s : str)
| PyOther.

(** [getattr(result, "stop_reason", "")]; the argument is the attribute of
    [result], [None] when it has none. *)
Definition getattr_stop_reason (attribute : option PyValue) : PyValue :=
  match attribute with
  | Some v => v
  | None => PyStr []
  end.

(** [main] once [Console(stream)] has returned [result]: the lines it
    prints. *)
Definition main (secret_code : str) (result_stop_reason : option PyValue)
  : list str :=
  match getattr_stop_reason result_stop_reason with
  | PyStr stop_reason =>
      if contains (lit "TERMINATE") stop_reason
      then [lit "Secret Code: " ++ secret_code]
      else []
  | PyNone | PyOther => []
  end.

End AI_yes.

(** A deployment on which the definitions can be evaluated: a secret, and
    an uppercase mapping that leaves the code points outside ASCII alone. *)
Definition demo_secret : str := lit "swordfish".
Definition keep_code_point (c : N) : str := [c].

Section Gatekeeper.

(** [SECRET_CODE], read from the environment when the module is loaded. *)
Variable SECRET_CODE : str.

(** The interpreter's full uppercase mapping of a code point outside
    ASCII (one code point may map to several). *)
Variable unicode_upper : N -> str.

Definition upper_char (c : N) : str :=
  if is_ascii_lower c then [(c - 32)%N]
  else if (c <? 128)%N then [c]
  else unicode_upper c.

(** [s.upper()] *)
Definition upper (s : str) : str := flat_map upper_char s.

Definition enqueue_user_message (content : str) (s : ConversationSession)
  : ConversationSession :=
  set_input_queue (Queue.put content (input_queue s)) s.

(** The [while True] loop of [drain_output_nowait]; it leaves through
    [QueueEmpty].  [fuel] bounds the number of iterations. *)
Fixpoint drain_loop (fuel : nat) (q : Queue.t Payload) (messages : list Payload)
  : option (list Payload * Queue.t Payload) :=
  match fuel with
  | O => None
  | S fuel' =>
      match Queue.get_nowait q with
      | Some (m, q') => drain_loop fuel' q' (messages ++ [m])
      | None => Some (messages, q)
      end
  end.

Definition drain_output_nowait (s : ConversationSession)
  : list Payload * ConversationSession :=
  let q := output_queue s in
  match drain_loop (S (length (Queue.pending q))) q [] with
  | Some (messages, q') => (messages, set_output_queue q' s)
  | None => ([], s)
  end.

(** [_user_input] at the moment the awaited [input_queue.get()] completes;
    [None]: still waiting (a cancelled wait consumes nothing either). *)
Definition _user_input (s : ConversationSession)
  : option (str * ConversationSession) :=
  match Queue.get (input_queue s) with
  | Some (line, q) => Some (line, set_input_queue q s)
  | None => None
  end.

Definition _emit_message (role content message_type : str)
           (s : ConversationSession) : ConversationSession :=
  let payload :=
    [(lit "type", message_type); (lit "role", role); (lit "content", content)] in
  let s := set_history (history s ++ [payload]) s in
  set_output_queue (Queue.put payload (output_queue s)) s.

Definition _emit_status (status : str) (details : option str)
           (s : ConversationSession) : ConversationSession :=
  let payload := [(lit "type", lit "status"); (lit "status", status)] in
  let payload :=
    match details with
    | Some d => if truthy d then payload ++ [(lit "details", d)] else payload
    | None => payload
    end in
  set_output_queue (Queue.put payload (output_queue s)) s.

(** [self.stop_reason and "TERMINATE" in self.stop_reason.upper()] *)
Definition stop_reason_has_marker (r : option str) : bool :=
  match r with
  | Some r => truthy r && contains (lit "TERMINATE") (upper r)
  | None => false
  end.

Definition _maybe_reveal_secret (s : ConversationSession)
  : ConversationSession :=
  if secret_revealed s then s
  else if termination_detected s || stop_reason_has_marker (stop_reason s)
  then _emit_message (lit "system") (lit "Secret Code: " ++ SECRET_CODE)
         (lit "secret") (set_secret_revealed true s)
  else s.

Definition _handle_chat_message (message : BaseChatMessage)
           (s : ConversationSession) : ConversationSession :=
  let content :=
    if is_MultiModalMessage message then to_text message
    else to_text message in
  let s :=
    if contains (lit "TERMINATE") content
    then set_termination_detected true s else s in
  _emit_message (source message) content (lit "message") s.

(** Body of the [async for] loop of [_run], for one item. *)
Definition _run_item (item : StreamItem) (s : ConversationSession)
  : ConversationSession :=
  match item with
  | TaskResult r =>
      _maybe_reveal_secret (set_stop_reason r (set_completed true s))
  | Response chat_message => _handle_chat_message chat_message s
  | ChatMessage m => _handle_chat_message m s
  | UserInputRequestedEvent =>
      set_output_queue
        (Queue.put [(lit "type", lit "input_required")] (output_queue s)) s
  | ModelClientStreamingChunkEvent => s
  | BaseAgentEvent src text =>
      set_output_queue
        (Queue.put [(lit "type", lit "event"); (lit "role", src);
                    (lit "content", text)] (output_queue s)) s
  | OtherItem => s
  end.

(** The [except Exception] and [finally] blocks of [_run]. *)
Definition _run_finish (e : StreamEnd) (s : ConversationSession)
  : ConversationSession :=
  let s :=
    match e with
    | RaisedException str_exc =>
        _emit_status (lit "error") (Some str_exc) (set_completed true s)
    | StopAsyncIteration | RaisedBaseException => s
    end in
  let s := _maybe_reveal_secret s in
  if completed s then s
  else _emit_status (lit "ended") None (set_completed true s).

(** [_run] over a stream that yields [items] and then stops with [e]. *)
Definition _run (items : list StreamItem) (e : StreamEnd)
           (s : ConversationSession) : ConversationSession :=
  _run_finish e (fold_left (fun s item => _run_item item s) items s).

(** [start] up to its [await asyncio.sleep(0)]. *)
Definition start_begin (s : ConversationSession) : ConversationSession :=
  match _task s with
  | None =>
      set_task (Some TaskPending)
        (_emit_message GREETING_ROLE GREETING_MESSAGE (lit "message") s)
  | Some _ => s
  end.

(** *** Atomic operations on one session

    Between two suspension points a coroutine runs alone, so a run of the
    event loop restricted to one session is a sequence of the operations
    below.  The pump and the engine's input callback only run while the
    background task is pending; an operation that cannot take place leaves
    the session as it is. *)

Inductive Op : Type :=
| OpStart                               (* [start], up to its sleep(0) *)
| OpEnqueueUserMessage (content : str)  (* [enqueue_user_message] *)
| OpDrainOutputNowait                   (* [drain_output_nowait] *)
| OpOutputGet                           (* a long poll's [output_queue.get()] completes *)
| OpUserInput                           (* the engine's [_user_input] returns *)
| OpRunItem (item : StreamItem)         (* one iteration of the pump's loop *)
| OpRunFinish (e : StreamEnd).          (* the pump's except/finally; the task ends *)

(** What an operation hands out: events to an HTTP client, lines to the
    engine. *)
Record Observed : Type := {
  to_client : list Payload;
  to_engine : list str
}.

Definition nothing : Observed := {| to_client := []; to_engine := [] |}.

Definition task_pending (s : ConversationSession) : bool :=
  match _task s with
  | Some TaskPending => true
  | _ => false
  end.

Definition exec_op (op : Op) (s : ConversationSession)
  : ConversationSession * Observed :=
  match op with
  | OpStart => (start_begin s, nothing)
  | OpEnqueueUserMessage content => (enqueue_user_message content s, nothing)
  | OpDrainOutputNowait =>
      let '(messages, s') := drain_output_nowait s in
      (s', {| to_client := messages; to_engine := [] |})
  | OpOutputGet =>
      match Queue.get (output_queue s) with
      | Some (item, q) =>
          (set_output_queue q s, {| to_client := [item]; to_engine := [] |})
      | None => (s, nothing)
      end
  | OpUserInput =>
      if task_pending s then
        match _user_input s with
        | Some (line, s') => (s', {| to_client := []; to_engine := [line] |})
        | None => (s, nothing)
        end
      else (s, nothing)
  | OpRunItem item =>
      if task_pending s then (_run_item item s, nothing) else (s, nothing)
  | OpRunFinish e =>
      if task_pending s
      then (set_task (Some TaskDone) (_run_finish e s), nothing)
      else (s, nothing)
  end.

Definition run (ops : list Op) (s : ConversationSession)
  : ConversationSession :=
  fold_left (fun s op => fst (exec_op op s)) ops s.

(** Events handed to clients, and lines handed to the engine, along a run. *)
Fixpoint delivered (ops : list Op) (s : ConversationSession) : list Payload :=
  match ops with
  | [] => []
  | op :: ops' =>
      let '(s', o) := exec_op op s in to_client o ++ delivered ops' s'
  end.

Fixpoint consumed (ops : list Op) (s : ConversationSession) : list str :=
  match ops with
  | [] => []
  | op :: ops' =>
      let '(s', o) := exec_op op s in to_engine o ++ consumed ops' s'
  end.

(** Contents posted along a run, in order. *)
Definition posted (ops : list Op) : list str :=
  flat_map (fun op => match op with
                      | OpEnqueueUserMessage c => [c]
                      | _ => []
                      end) ops.

Definition isinstance_TaskResult (item : StreamItem) : bool :=
  match item with
  | TaskResult _ => true
  | _ => false
  end.


Definition takes_output (op : Op) : bool :=
  match op with
  | OpDrainOutputNowait | OpOutputGet => true
  | _ => false
  end.

(** [start]; [yielded] is what the other tasks do during
    [await asyncio.sleep(0)]. *)
Definition start (yielded : list Op) (s : ConversationSession)
  : ConversationSession :=
  match _task s with
  | None => run yielded (start_begin s)
  | Some _ => s
  end.

(** ** SessionManager and the HTTP handlers *)

Record HTTPException : Type := {
  status_code : N;
  detail : str
}.

(** What an endpoint answers: the handler's return value, the
    [HTTPException] it raised, or the framework's status 422 when a declared
    constraint on a parameter fails, in which case the handler is not
    called. *)
Inductive Result (A : Type) : Type :=
| Ok (a : A)
| Raise (e : HTTPException)
| RequestValidationError.
#[global] Arguments Ok {A} _.
#[global] Arguments Raise {A} _.
#[global] Arguments RequestValidationError {A}.


(** [SessionManager._sessions] *)
Abbreviation SessionManager := (gmap str ConversationSession).

(** [create_session]; [session_id] is the value of [uuid.uuid4().hex]. *)
Definition create_session (sid : str) (yielded : list Op)
           (mgr : SessionManager) : ConversationSession * SessionManager :=
  let session := new_session sid in
  let session := start yielded session in
  (session, <[sid := session]> mgr).

Definition get_session (mgr : SessionManager) (sid : str)
  : Result ConversationSession :=
  match mgr !! sid with
  | Some session => Ok session
  | None =>
      Raise {| status_code := 404; detail := lit "Session not found" |}
  end.

Record MessageRequest : Type := { content : str }.

Record SessionResponse : Type := {
  resp_session_id : str;
  resp_events : list Payload;
  resp_completed : bool;
  resp_secret_unlocked : bool
}.

Record EventsResponse : Type := {
  events : list Payload;
  completed_flag : bool;
  secret_unlocked : bool
}.

(** [POST /api/session] *)
Definition start_session (sid : str) (yielded : list Op)
           (mgr : SessionManager) : SessionResponse * SessionManager :=
  let '(session, mgr) := create_session sid yielded mgr in
  let '(initial_events, session) := drain_output_nowait session in
  ({| resp_session_id := session_id session;
      resp_events := initial_events;
      resp_completed := completed session;
      resp_secret_unlocked := secret_revealed session |},
   <[sid := session]> mgr).

(** [POST /api/session/{session_id}/message] *)
Definition send_message (sid : str) (payload : MessageRequest)
           (mgr : SessionManager) : Result Payload * SessionManager :=
  match get_session mgr sid with
  | Raise e => (Raise e, mgr)
  | RequestValidationError => (RequestValidationError, mgr)
  | Ok session =>
      let content := strip (content payload) in
      if negb (truthy content)
      then (Raise {| status_code := 400;
                     detail := lit "Message cannot be empty" |}, mgr)
      else
        let session := enqueue_user_message content session in
        (Ok [(lit "status", lit "accepted")], <[sid := session]> mgr)
  end.

(** [Query(default=0.0, ge=0.0, le=30.0)]: the value when the parameter is
    left out. *)
Definition timeout_default : Q := 0.

(** [Query(default=0.0, ge=0.0, le=30.0)]: the declared bounds. *)
Definition timeout_in_bounds (timeout : Q) : bool :=
  Qle_bool 0 timeout && Qle_bool timeout 30.

(** [GET /api/session/{session_id}/events]; [waited] is what the other
    tasks do to the session while the handler is suspended in
    [asyncio.wait_for(session.output_queue.get(), timeout)].  When the
    handler resumes, [get] has completed with the oldest pending event if
    there is one, and [TimeoutError] is raised otherwise.  A timeout outside
    the declared bounds is refused before the body runs. *)
Definition get_events (sid : str) (timeout : option Q) (waited : list Op)
           (mgr : SessionManager) : Result EventsResponse * SessionManager :=
  let timeout := default timeout_default timeout in
  if negb (timeout_in_bounds timeout) then (RequestValidationError, mgr)
  else
  match get_session mgr sid with
  | Raise e => (Raise e, mgr)
  | RequestValidationError => (RequestValidationError, mgr)
  | Ok session =>
      let '(events, session) := drain_output_nowait session in
      let '(events, session) :=
        match events with
        | [] =>
            if negb (Qle_bool timeout 0) then
              let session := run waited session in
              match Queue.get (output_queue session) with
              | Some (item, q) => ([item], set_output_queue q session)
              | None => ([], session)
              end
            else (events, session)
        | _ :: _ => (events, session)
        end in
      let '(more, session) := drain_output_nowait session in
      (Ok {| events := events ++ more;
             completed_flag := completed session;
             secret_unlocked := secret_revealed session |},
       <[sid := session]> mgr)
  end.

(** ** Quantities the properties are stated with *)

(** Events ever put on the output queue. *)
Definition emitted (s : ConversationSession) : list Payload :=
  Queue.put_log (output_queue s).

(** Events put on the output queue on the way from [s] to [s']. *)
Definition emitted_since (s s' : ConversationSession) : list Payload :=
  List.skipn (length (emitted s)) (emitted s').

Definition secret_count (s : ConversationSession) : nat :=
  length (List.filter is_secret (emitted s)).

(** The gate's condition on the session's fields. *)
Definition release_condition (s : ConversationSession) : bool :=
  termination_detected s || stop_reason_has_marker (stop_reason s).

(** The payload that [_maybe_reveal_secret] emits. *)
Definition secret_event : Payload :=
  [(lit "type", lit "secret"); (lit "role", lit "system");
   (lit "content", lit "Secret Code: " ++ SECRET_CODE)].

(** Payloads built by [_emit_message]: chat messages and the secret. *)
Definition is_transcript (p : Payload) : bool :=
  has_type "message" p || has_type "secret" p.

(** A chat message event whose text has the marker. *)
Definition mentions_terminate (p : Payload) : bool :=
  has_type "message" p
  && match dict_get (lit "content") p with
     | Some text => contains (lit "TERMINATE") text
     | None => false
     end.


(** An operation that removes nothing from the output queue. *)
Definition leaves_output (op : Op) : bool := negb (takes_output op).

(** The completion flag against the state of the background task. *)
Definition task_consistent (s : ConversationSession) : Prop :=
  (_task s = Some TaskDone -> completed s = true)
  /\ (completed s = true -> _task s <> None).





(** * Properties *)

(** ** Strings *)

Lemma str_eqb_eq (a b : str) : str_eqb a b = true <-> a = b.
Proof.
  revert b; induction a as [|x a IH]; intros [|y b]; simpl; split;
    try congruence; try discriminate.
  - intros H. apply andb_true_iff in H as [Hx Hab].
    apply N.eqb_eq in Hx. apply IH in Hab. congruence.
  - intros H. injection H as -> ->. rewrite N.eqb_refl. simpl.
    now apply IH.
Qed.

Lemma startswith_spec (p s : str) :
  startswith p s = true <-> exists post, s = p ++ post.
Proof.
  revert s; induction p as [|x p IH]; intros s; simpl.
  - split; [intros _; now exists s | reflexivity].
  - destruct s as [|y s].
    + split; [discriminate | intros [post H]; discriminate].
    + rewrite andb_true_iff, N.eqb_eq, IH. split.
      * intros [-> [post ->]]. now exists post.
      * intros [post H]. injection H as -> ->. split; [reflexivity | now exists post].
Qed.

(** [contains] is the substring test. *)
Lemma contains_spec (needle s : str) :
  contains needle s = true <-> exists pre post, s = pre ++ needle ++ post.
Proof.
  induction s as [|c s IH].
  - simpl. rewrite orb_false_r, startswith_spec. split.
    + intros [post H]. now exists [], post.
    + intros [pre [post H]]. destruct pre as [|? ?]; [|discriminate].
      now exists post.
  - cbn [contains]. rewrite orb_true_iff, startswith_spec, IH. split.
    + intros [[post H] | [pre [post H]]].
      * now exists [], post.
      * exists (c :: pre), post. simpl. now rewrite H.
    + intros [pre [post H]]. destruct pre as [|d pre].
      * left. now exists post.
      * right. injection H as -> ->. now exists pre, post.
Qed.

Lemma lstrip_spec (s : str) :
  exists ws, s = ws ++ lstrip s /\ forallb isspace ws = true.
Proof.
  induction s as [|c s [ws [H1 H2]]]; simpl.
  - now exists [].
  - destruct (isspace c) eqn:Hc.
    + exists (c :: ws). simpl. rewrite Hc, H2. split; [now rewrite <- H1 | reflexivity].
    + now exists [].
Qed.

Lemma lstrip_head (s : str) c rest :
  lstrip s = c :: rest -> isspace c = false.
Proof.
  induction s as [|d s IH]; simpl; [discriminate|].
  destruct (isspace d) eqn:Hd; [exact IH|].
  intros H. injection H as -> _. exact Hd.
Qed.

Lemma lstrip_nonspace c (s : str) : isspace c = false -> lstrip (c :: s) = c :: s.
Proof. intros H. simpl. now rewrite H. Qed.

Lemma rstrip_spec (s : str) :
  exists ws, s = rstrip s ++ ws /\ forallb isspace ws = true.
Proof.
  unfold rstrip. destruct (lstrip_spec (rev s)) as [ws [H1 H2]].
  exists (rev ws). split.
  - rewrite <- rev_app_distr, <- H1. now rewrite rev_involutive.
  - rewrite forallb_forall in *. intros x Hx. apply H2. now apply in_rev.
Qed.

Lemma rstrip_last (s : str) front c :
  rstrip s = front ++ [c] -> isspace c = false.
Proof.
  unfold rstrip. intros H.
  apply (f_equal (@rev N)) in H. rewrite rev_involutive, rev_app_distr in H.
  simpl in H. now apply lstrip_head in H.
Qed.

(** Stripping on the right keeps a first character that is not white. *)
Lemma rstrip_keeps_head c (s : str) :
  isspace c = false -> exists rest, rstrip (c :: s) = c :: rest.
Proof.
  intros Hc. destruct (rstrip_spec (c :: s)) as [ws [H1 H2]].
  destruct (rstrip (c :: s)) as [|d rest] eqn:E.
  - simpl in H1. subst ws. simpl in H2. rewrite Hc in H2. discriminate.
  - injection H1 as -> _. now exists rest.
Qed.

(** What [strip] returns: the argument without a white prefix and a white
    suffix, with no white character left at either end. *)
Lemma strip_spec (s : str) :
  (exists l r, s = l ++ strip s ++ r
               /\ forallb isspace l = true /\ forallb isspace r = true)
  /\ (forall c rest, strip s = c :: rest -> isspace c = false)
  /\ (forall front c, strip s = front ++ [c] -> isspace c = false).
Proof.
  unfold strip. split; [|split].
  - destruct (lstrip_spec s) as [l [H1 H2]].
    destruct (rstrip_spec (lstrip s)) as [r [H3 H4]].
    exists l, r. rewrite <- H3. auto.
  - intros c rest H. destruct (lstrip s) as [|d t] eqn:E.
    + discriminate.
    + pose proof (lstrip_head _ _ _ E) as Hd.
      destruct (rstrip_keeps_head d t Hd) as [rest' Hr].
      rewrite Hr in H. injection H as -> _. exact Hd.
  - intros front c H. now apply rstrip_last in H.
Qed.

Lemma upper_app (a b : str) : upper (a ++ b) = upper a ++ upper b.
Proof. unfold upper. apply flat_map_app. Qed.

Lemma upper_char_same_letter c m :
  is_ascii_upper m = true -> same_letter c m = true -> upper_char c = [m].
Proof.
  unfold is_ascii_upper, same_letter, upper_char, is_ascii_lower.
  intros Hm Hc.
  apply andb_true_iff in Hm as [H1 H2].
  apply N.leb_le in H1, H2.
  apply orb_true_iff in Hc as [Hc | Hc].
  - apply N.eqb_eq in Hc. subst c.
    destruct (97 <=? m)%N eqn:E1; [apply N.leb_le in E1; lia|]. simpl.
    destruct (m <? 128)%N eqn:E2; [reflexivity | apply N.ltb_ge in E2; lia].
  - apply andb_true_iff in Hc as [_ Hc]. apply N.eqb_eq in Hc. subst c.
    destruct (97 <=? m + 32)%N eqn:E1; [|apply N.leb_gt in E1; lia].
    destruct (m + 32 <=? 122)%N eqn:E2; [|apply N.leb_gt in E2; lia].
    simpl. f_equal. lia.
Qed.

(** Upper-casing any casing of an upper-case ASCII word gives the word. *)
Lemma upper_casing (w marker : str) :
  forallb is_ascii_upper marker = true ->
  is_casing_of w marker = true -> upper w = marker.
Proof.
  revert marker; induction w as [|c w IH]; intros [|m marker]; simpl;
    try discriminate; try reflexivity.
  intros Hm Hw.
  apply andb_true_iff in Hm as [Hm1 Hm2].
  apply andb_true_iff in Hw as [Hw1 Hw2].
  change (upper (c :: w)) with (upper_char c ++ upper w).
  rewrite (upper_char_same_letter c m Hm1 Hw1), (IH marker Hm2 Hw2).
  reflexivity.
Qed.

(** ** The queue and the drain loop *)

Lemma drain_loop_enough fuel (q : Queue.t Payload) messages :
  length (Queue.pending q) < fuel ->
  drain_loop fuel q messages
  = Some (messages ++ Queue.pending q, Queue.Make [] (Queue.put_log q)).
Proof.
  revert q messages; induction fuel as [|fuel IH]; intros [p l] messages H;
    [simpl in H; lia|].
  destruct p as [|m p]; simpl in *.
  - now rewrite app_nil_r.
  - unfold Queue.get_nowait; simpl. rewrite IH by (simpl; lia).
    simpl. now rewrite <- app_assoc.
Qed.

(** [drain_output_nowait] returns: everything pending, in order, and nothing
    is left pending. *)
Lemma drain_output_nowait_eq s :
  drain_output_nowait s
  = (Queue.pending (output_queue s),
     set_output_queue (Queue.Make [] (Queue.put_log (output_queue s))) s).
Proof.
  unfold drain_output_nowait. rewrite drain_loop_enough by lia. reflexivity.
Qed.

(** ** Payload types *)

Lemma filter_snoc {A} (f : A -> bool) l x :
  List.filter f (l ++ [x]) = List.filter f l ++ (if f x then [x] else []).
Proof. rewrite List.filter_app. reflexivity. Qed.

(** ** One operation at a time *)

(** Evaluate the session's methods on a session given by its fields. *)
Ltac session_eval :=
  cbv beta iota zeta delta
    [exec_op start_begin enqueue_user_message _user_input _run_item
     _run_finish _handle_chat_message _maybe_reveal_secret _emit_status
     _emit_message task_pending nothing
     Queue.get Queue.get_nowait Queue.put Queue.pending Queue.put_log
     set_input_queue set_output_queue set_history set_completed
     set_termination_detected set_secret_revealed set_stop_reason set_task
     session_id input_queue output_queue history completed
     termination_detected secret_revealed stop_reason _task
     source to_text is_MultiModalMessage
     emitted secret_count release_condition fst snd to_client to_engine].

Ltac case_scrutinee :=
  match goal with
  | |- context [match ?x with _ => _ end] => is_var x; destruct x
  | |- context [if ?b then _ else _] => destruct b eqn:?
  end.

Ltac session_cases := session_eval; repeat (case_scrutinee; session_eval).

Ltac each_op op :=
  destruct op as [| ? | | | | [ ? | [? ? ?] | [? ? ?] | | | ? ? | ] | [ | ? | ]];
  lazy beta iota delta [exec_op];
  rewrite ?drain_output_nowait_eq.

(** No operation resets a flag. *)
Lemma exec_op_flags op s :
  (completed s = true -> completed (fst (exec_op op s)) = true)
  /\ (termination_detected s = true
      -> termination_detected (fst (exec_op op s)) = true)
  /\ (secret_revealed s = true -> secret_revealed (fst (exec_op op s)) = true).
Proof.
  destruct s as [sid [inp inl] [outp outl] h c td sr r t].
  each_op op; session_cases; auto.
Qed.


Lemma run_cons op ops s : run (op :: ops) s = run ops (fst (exec_op op s)).
Proof. reflexivity. Qed.

Lemma run_flags ops s :
  (completed s = true -> completed (run ops s) = true)
  /\ (termination_detected s = true -> termination_detected (run ops s) = true)
  /\ (secret_revealed s = true -> secret_revealed (run ops s) = true).
Proof.
  revert s; induction ops as [|op ops IH]; intros s; [auto|].
  rewrite run_cons.
  destruct (exec_op_flags op s) as (H1 & H2 & H3).
  destruct (IH (fst (exec_op op s))) as (K1 & K2 & K3). auto.
Qed.

Lemma has_type_head ty t (rest : Payload) :
  has_type ty ((lit "type", t) :: rest) = str_eqb t (lit ty).
Proof. reflexivity. Qed.

(** Decide the type tests on payloads built by the session. *)
Ltac payload_types :=
  unfold is_secret, is_status; cbn [app]; rewrite ?has_type_head;
  repeat match goal with
    | |- context [str_eqb (lit ?a) (lit ?b)] =>
        let v := eval vm_compute in (str_eqb (lit a) (lit b)) in
        change (str_eqb (lit a) (lit b)) with v
    end;
  cbv iota.








(** ** Queue order along a run *)

Lemma exec_op_output op s before :
  before ++ Queue.pending (output_queue s) = emitted s ->
  (before ++ to_client (snd (exec_op op s)))
    ++ Queue.pending (output_queue (fst (exec_op op s)))
  = emitted (fst (exec_op op s)).
Proof.
  destruct s as [sid [inp inl] [outp outl] h c td sr r t].
  each_op op; session_cases; intros H; subst;
    rewrite ?app_nil_r, <- ?app_assoc; cbn [app];
    rewrite ?app_nil_r, ?app_assoc; reflexivity.
Qed.

Lemma delivered_fifo ops s before :
  before ++ Queue.pending (output_queue s) = emitted s ->
  (before ++ delivered ops s) ++ Queue.pending (output_queue (run ops s))
  = emitted (run ops s).
Proof.
  revert s before; induction ops as [|op ops IH]; intros s before H.
  - cbn. now rewrite app_nil_r.
  - rewrite run_cons. cbn [delivered].
    pose proof (exec_op_output op s before H) as K.
    destruct (exec_op op s) as [s' o]. cbn [fst snd] in *.
    rewrite app_assoc. now apply IH.
Qed.

Lemma exec_op_input op s :
  to_engine (snd (exec_op op s))
    ++ Queue.pending (input_queue (fst (exec_op op s)))
  = Queue.pending (input_queue s)
      ++ match op with OpEnqueueUserMessage c => [c] | _ => [] end.
Proof.
  destruct s as [sid [inp inl] [outp outl] h c td sr r t].
  each_op op; session_cases; rewrite ?app_nil_r; reflexivity.
Qed.

Lemma consumed_fifo ops s :
  consumed ops s ++ Queue.pending (input_queue (run ops s))
  = Queue.pending (input_queue s) ++ posted ops.
Proof.
  revert s; induction ops as [|op ops IH]; intros s.
  - cbn. now rewrite app_nil_r.
  - rewrite run_cons. cbn [consumed].
    pose proof (exec_op_input op s) as K.
    destruct (exec_op op s) as [s' o]. cbn [fst snd] in *.
    rewrite <- app_assoc, IH, app_assoc, K, <- app_assoc. reflexivity.
Qed.

(** ** The secret release gate *)







(** ** Case handling of the two marker checks *)

Lemma casing_nonempty (w marker : str) :
  is_casing_of w marker = true -> marker <> [] -> w <> [].
Proof. destruct w, marker; simpl; congruence. Qed.

Lemma stop_reason_any_casing (w pre post : str) :
  is_casing_of w (lit "TERMINATE") = true ->
  stop_reason_has_marker (Some (pre ++ w ++ post)) = true.
Proof.
  intros Hw. unfold stop_reason_has_marker.
  apply andb_true_iff. split.
  - assert (w <> []) by (eapply casing_nonempty; [exact Hw | discriminate]).
    destruct pre; [destruct w; [congruence | reflexivity] | reflexivity].
  - apply contains_spec. exists (upper pre), (upper post).
    rewrite !upper_app. now rewrite (upper_casing w (lit "TERMINATE")).
Qed.

(** C2. The live scan of a chat message sets termination-detected exactly
    when the message text has the marker as a substring, character for
    character; the check of the stop reason accepts the marker in any mix of
    upper and lower case, and a terminal result carrying such a stop reason
    releases the secret.  The lower-case marker separates the two. *)
Theorem marker_checks_differ_in_case :
  (forall m s,
      termination_detected (_handle_chat_message m s)
      = termination_detected s || contains (lit "TERMINATE") (to_text m))
  /\ (forall text : str,
        contains (lit "TERMINATE") text = true
        <-> exists pre post, text = pre ++ lit "TERMINATE" ++ post)
  /\ (forall w pre post s,
        is_casing_of w (lit "TERMINATE") = true ->
        stop_reason_has_marker (Some (pre ++ w ++ post)) = true
        /\ secret_revealed (_run_item (TaskResult (Some (pre ++ w ++ post))) s)
           = true)
  /\ contains (lit "TERMINATE") (lit "terminate") = false
  /\ stop_reason_has_marker (Some (lit "terminate")) = true.
Proof.
  split; [|split; [|split; [|split]]].
  - intros [src text mm] [sid [inp inl] [outp outl] h c td sr r t].
    session_cases; rewrite ?orb_true_r, ?orb_false_r; reflexivity.
  - intros text. apply contains_spec.
  - intros w pre post s Hw.
    pose proof (stop_reason_any_casing w pre post Hw) as H.
    split; [exact H|].
    destruct s as [sid [inp inl] [outp outl] h c td sr r t].
    revert H. generalize (pre ++ w ++ post). intros reason H.
    session_eval. rewrite H, orb_true_r. destruct sr; reflexivity.
  - reflexivity.
  - apply (stop_reason_any_casing (lit "terminate") [] []). reflexivity.
Qed.

(** ** How the pump's run ends *)

Lemma emitted_since_app s s' added :
  emitted s' = emitted s ++ added -> emitted_since s s' = added.
Proof.
  unfold emitted_since. intros ->. rewrite skipn_app, skipn_all, Nat.sub_diag.
  reflexivity.
Qed.

(** One iteration of the loop emits no status event, and completes the
    session exactly when the item is the terminal result. *)
Lemma _run_item_status item s :
  completed (_run_item item s) = completed s || isinstance_TaskResult item
  /\ exists added,
       emitted (_run_item item s) = emitted s ++ added
       /\ List.filter is_status added = [].
Proof.
  destruct s as [sid [inp inl] [outp outl] h c td sr r t].
  destruct item as [ ? | [? ? ?] | [? ? ?] | | | ? ? | ];
    cbn [isinstance_TaskResult]; rewrite ?orb_true_r, ?orb_false_r;
    session_cases; (split; [reflexivity|]);
    first [ eexists [_]; split; [reflexivity | payload_types; reflexivity]
          | exists []; split; [now rewrite app_nil_r | reflexivity] ].
Qed.

Lemma _run_items_status items s :
  let s' := fold_left (fun s item => _run_item item s) items s in
  completed s' = completed s || existsb isinstance_TaskResult items
  /\ exists added,
       emitted s' = emitted s ++ added /\ List.filter is_status added = [].
Proof.
  revert s; induction items as [|item items IH]; intros s; cbn.
  - rewrite orb_false_r. split; [reflexivity|].
    exists []. now rewrite app_nil_r.
  - destruct (IH (_run_item item s)) as [Hc [added2 [He2 Hs2]]].
    destruct (_run_item_status item s) as [Hc1 [added1 [He1 Hs1]]].
    split.
    + rewrite Hc, Hc1. now rewrite orb_assoc.
    + exists (added1 ++ added2). split.
      * rewrite He2, He1. now rewrite app_assoc.
      * rewrite List.filter_app, Hs1, Hs2. reflexivity.
Qed.

Lemma _run_finish_status e s :
  completed (_run_finish e s) = true
  /\ exists added,
       emitted (_run_finish e s) = emitted s ++ added
       /\ List.filter is_status added
          = match e with
            | RaisedException str_exc =>
                [[(lit "type", lit "status"); (lit "status", lit "error")]
                   ++ (if truthy str_exc
                       then [(lit "details", str_exc)] else [])]
            | StopAsyncIteration | RaisedBaseException =>
                if completed s then []
                else [[(lit "type", lit "status"); (lit "status", lit "ended")]]
            end.
Proof.
  destruct s as [sid [inp inl] [outp outl] h c td sr r t].
  destruct e as [ | str_exc | ]; session_cases; try congruence;
    (split; [reflexivity|]);
    rewrite <- ?app_assoc;
    (first [ eexists; split; [reflexivity|]
           | exists []; split; [now rewrite app_nil_r|] ]);
    cbn [app List.filter]; payload_types; rewrite ?app_nil_r; reflexivity.
Qed.

(** C3, as the code has it.  However the pump's run ends, the completion
    flag is true afterwards.  The run puts a status event on the output
    queue when it ends with an exception (status error, with the
    description when there is one), and when the stream stops without a
    terminal result having been handled (status ended); a run that handled
    a terminal result and then stops puts no status event on the queue. *)
Theorem run_end_completes_and_reports (items : list StreamItem)
        (e : StreamEnd) (s : ConversationSession) :
  let s' := _run items e s in
  completed s' = true
  /\ List.filter is_status (emitted_since s s')
     = match e with
       | RaisedException str_exc =>
           [[(lit "type", lit "status"); (lit "status", lit "error")]
              ++ (if truthy str_exc then [(lit "details", str_exc)] else [])]
       | StopAsyncIteration | RaisedBaseException =>
           if completed s || existsb isinstance_TaskResult items then []
           else [[(lit "type", lit "status"); (lit "status", lit "ended")]]
       end.
Proof.
  intros s'. subst s'. unfold _run.
  set (s1 := fold_left (fun s item => _run_item item s) items s).
  destruct (_run_items_status items s) as [Hc [added1 [He1 Hs1]]].
  fold s1 in Hc, He1.
  destruct (_run_finish_status e s1) as [Hd [added2 [He2 Hs2]]].
  split; [exact Hd|].
  rewrite (emitted_since_app s _ (added1 ++ added2))
    by (rewrite He2, He1; now rewrite app_assoc).
  rewrite List.filter_app, Hs1, Hs2, Hc. reflexivity.
Qed.

(** ** The HTTP handlers *)

(** The session after [drain_output_nowait]. *)
Lemma drain_output_nowait_snd s :
  snd (drain_output_nowait s)
  = set_output_queue (Queue.Make [] (Queue.put_log (output_queue s))) s.
Proof. now rewrite drain_output_nowait_eq. Qed.

Lemma drain_output_nowait_fst s :
  fst (drain_output_nowait s) = Queue.pending (output_queue s).
Proof. now rewrite drain_output_nowait_eq. Qed.

(** What [get_events] computes for a registered session. *)
Lemma timeout_in_bounds_iff (t : Q) :
  timeout_in_bounds t = true <-> (0 <= t <= 30)%Q.
Proof.
  unfold timeout_in_bounds. rewrite andb_true_iff, !Qle_bool_iff.
  reflexivity.
Qed.

Lemma get_events_eq (mgr : gmap str ConversationSession) sid s timeout waited :
  mgr !! sid = Some s ->
  timeout_in_bounds (default timeout_default timeout) = true ->
  get_events sid timeout waited mgr
  = let s1 := snd (drain_output_nowait s) in
    if negb (truthy (Queue.pending (output_queue s)))
       && negb (Qle_bool (default timeout_default timeout) 0)
    then
      let s2 := run waited s1 in
      (Ok {| events := Queue.pending (output_queue s2);
             completed_flag := completed s2;
             secret_unlocked := secret_revealed s2 |},
       <[sid := snd (drain_output_nowait s2)]> mgr)
    else
      (Ok {| events := Queue.pending (output_queue s);
             completed_flag := completed s;
             secret_unlocked := secret_revealed s |},
       <[sid := s1]> mgr).
Proof.
  intros H Hb. unfold get_events, get_session. rewrite H.
  cbv zeta. rewrite Hb. cbn [negb].
  rewrite (drain_output_nowait_snd s), (drain_output_nowait_eq s).
  set (s1 := set_output_queue _ s).
  assert (Hs1 : drain_output_nowait s1
                = ([], s1)) by (now rewrite drain_output_nowait_eq).
  destruct (Queue.pending (output_queue s)) as [|ev evs];
    destruct (Qle_bool (default timeout_default timeout) 0);
    cbn [truthy negb andb]; cbv beta iota zeta;
    rewrite ?Hs1; cbv beta iota zeta; rewrite ?app_nil_r; try reflexivity.
  destruct (run waited s1) as [i [inp inl] [outp outl] h c td sr r t].
  unfold Queue.get, Queue.get_nowait. cbn [output_queue Queue.pending].
  destruct outp as [|item rest];
    rewrite !drain_output_nowait_eq; cbv beta iota zeta; reflexivity.
Qed.

Lemma get_events_out_of_bounds (mgr : gmap str ConversationSession)
      sid timeout waited :
  timeout_in_bounds (default timeout_default timeout) = false ->
  get_events sid timeout waited mgr = (RequestValidationError, mgr).
Proof. intros H. unfold get_events. cbv zeta. rewrite H. reflexivity. Qed.

Lemma get_events_ok_in_bounds (mgr mgr' : gmap str ConversationSession)
      sid timeout waited r :
  get_events sid timeout waited mgr = (Ok r, mgr') ->
  timeout_in_bounds (default timeout_default timeout) = true.
Proof.
  destruct (timeout_in_bounds (default timeout_default timeout)) eqn:H;
    [reflexivity|].
  rewrite (get_events_out_of_bounds mgr sid timeout waited H). discriminate.
Qed.

(** C4. For a registered session and a timeout between 0 and 30 (0 when
    left out), the events endpoint answers with the events that were
    pending when there are some or when the timeout is 0; otherwise it
    waits, and answers with whatever is pending when it resumes: one
    awaited event followed by the rest of the queue, or, when the wait
    timed out with nothing new, an empty list together with the two
    flags.  The answer is never an error. *)
Theorem get_events_long_poll
        (mgr : gmap str ConversationSession) (sid : str)
        (s : ConversationSession) (timeout : option Q) (waited : list Op) :
  mgr !! sid = Some s ->
  (0 <= default timeout_default timeout <= 30)%Q ->
  let t := default timeout_default timeout in
  let pending_now := Queue.pending (output_queue s) in
  let s1 := snd (drain_output_nowait s) in
  let s2 := run waited s1 in
  (timeout = None -> (t == 0)%Q)
  /\ (pending_now <> [] \/ (t == 0)%Q ->
      get_events sid timeout waited mgr
      = (Ok {| events := pending_now;
               completed_flag := completed s;
               secret_unlocked := secret_revealed s |},
         <[sid := s1]> mgr))
  /\ (pending_now = [] -> (0 < t)%Q ->
      match Queue.get (output_queue s2) with
      | None =>
          get_events sid timeout waited mgr
          = (Ok {| events := [];
                   completed_flag := completed s2;
                   secret_unlocked := secret_revealed s2 |},
             <[sid := snd (drain_output_nowait s2)]> mgr)
      | Some (item, q) =>
          get_events sid timeout waited mgr
          = (Ok {| events := [item] ++ Queue.pending q;
                   completed_flag := completed s2;
                   secret_unlocked := secret_revealed s2 |},
             <[sid := snd (drain_output_nowait s2)]> mgr)
      end).
Proof.
  intros Hs Hrange t pending_now s1 s2.
  assert (Hb : timeout_in_bounds (default timeout_default timeout) = true)
    by (apply timeout_in_bounds_iff, Hrange).
  split; [|split].
  - intros ->. reflexivity.
  - intros Hcase. rewrite (get_events_eq mgr sid s timeout waited Hs Hb).
    cbv zeta. fold t pending_now s1.
    destruct Hcase as [Hne | Hz].
    + destruct pending_now; [congruence | reflexivity].
    + assert (E : Qle_bool t 0 = true) by (apply Qle_bool_iff; rewrite Hz; apply Qle_refl).
      rewrite E, andb_false_r. reflexivity.
  - intros Hnil Hpos. rewrite (get_events_eq mgr sid s timeout waited Hs Hb).
    cbv zeta. fold t pending_now s1 s2. rewrite Hnil.
    assert (E : Qle_bool t 0 = false).
    { destruct (Qle_bool t 0) eqn:E; [|reflexivity].
      apply Qle_bool_iff in E. exfalso. exact (Qlt_not_le _ _ Hpos E). }
    rewrite E. cbn [truthy negb andb].
    unfold Queue.get, Queue.get_nowait.
    destruct (Queue.pending (output_queue s2)) as [|item rest];
      reflexivity.
Qed.

(** C5. For a registered session, a message whose content is empty once
    stripped is refused with status 400 and the registry, hence the input
    queue and the transcript of the session, is left as it was; any other
    message has its content put on the session's input queue and is
    acknowledged with status accepted. *)
Theorem send_message_validates
        (mgr : gmap str ConversationSession) (sid : str)
        (s : ConversationSession) (payload : MessageRequest) :
  mgr !! sid = Some s ->
  (strip (content payload) = [] ->
   send_message sid payload mgr
   = (Raise {| status_code := 400;
               detail := lit "Message cannot be empty" |}, mgr))
  /\ (strip (content payload) <> [] ->
      exists s',
        send_message sid payload mgr
        = (Ok [(lit "status", lit "accepted")], <[sid := s']> mgr)
        /\ Queue.pending (input_queue s')
           = Queue.pending (input_queue s) ++ [strip (content payload)]
        /\ history s' = history s
        /\ output_queue s' = output_queue s).
Proof.
  intros Hs. unfold send_message, get_session. rewrite Hs. split.
  - intros ->. reflexivity.
  - intros Hne. destruct (strip (content payload)) as [|c rest] eqn:E;
      [congruence|].
    cbn [truthy negb]. eexists. split; [reflexivity|].
    split; [|split]; reflexivity.
Qed.


(** C9. What the message endpoint puts on the input queue is the stripped
    content: it has no white character at either end, it is placed behind
    the lines already waiting, and the lines that the engine's input
    callback hands out afterwards are taken from that queue in order. *)
Theorem send_message_enqueues_stripped
        (mgr : gmap str ConversationSession) (sid : str)
        (s : ConversationSession) (payload : MessageRequest) :
  mgr !! sid = Some s ->
  strip (content payload) <> [] ->
  let line := strip (content payload) in
  exists s',
    snd (send_message sid payload mgr) !! sid = Some s'
    /\ s' = enqueue_user_message line s
    /\ Queue.pending (input_queue s') = Queue.pending (input_queue s) ++ [line]
    /\ (forall c rest, line = c :: rest -> isspace c = false)
    /\ (forall front c, line = front ++ [c] -> isspace c = false)
    /\ (Queue.pending (input_queue s) = [] ->
        exists s'', _user_input s' = Some (line, s''))
    /\ (forall ops,
          consumed ops s' ++ Queue.pending (input_queue (run ops s'))
          = Queue.pending (input_queue s) ++ [line] ++ posted ops).
Proof.
  intros Hs Hne. cbv zeta.
  exists (enqueue_user_message (strip (content payload)) s).
  destruct (strip_spec (content payload)) as (_ & Hhead & Hlast).
  split; [|split; [|split; [|split; [|split; [|split]]]]].
  - unfold send_message, get_session. rewrite Hs.
    destruct (strip (content payload)) as [|c rest] eqn:E; [congruence|].
    cbn [truthy negb snd]. apply lookup_insert_eq.
  - reflexivity.
  - reflexivity.
  - exact Hhead.
  - exact Hlast.
  - intros Hempty. unfold _user_input, Queue.get, Queue.get_nowait.
    cbn [enqueue_user_message input_queue set_input_queue Queue.put
         Queue.pending].
    rewrite Hempty. cbn [app]. eexists. reflexivity.
  - intros ops. rewrite consumed_fifo. cbn. now rewrite <- app_assoc.
Qed.

(** ** Starting a session *)

Lemma exec_op_task_started op s :
  _task s <> None -> _task (fst (exec_op op s)) <> None.
Proof.
  destruct s as [sid [inp inl] [outp outl] h c td sr r t].
  each_op op; session_cases; intros H; congruence.
Qed.

Lemma run_task_started ops s : _task s <> None -> _task (run ops s) <> None.
Proof.
  revert s; induction ops as [|op ops IH]; intros s H; [exact H|].
  rewrite run_cons. apply IH, exec_op_task_started, H.
Qed.

(** Nothing but the two consuming operations removes a pending event. *)
Lemma exec_op_keeps_pending op s :
  takes_output op = false ->
  exists added,
    Queue.pending (output_queue (fst (exec_op op s)))
    = Queue.pending (output_queue s) ++ added.
Proof.
  destruct s as [sid [inp inl] [outp' outl] h c td sr r t].
  each_op op; cbn [takes_output]; intros H; try discriminate H; clear H;
    session_cases; rewrite <- ?app_assoc;
    first [ eexists; reflexivity | exists []; now rewrite app_nil_r ].
Qed.

Lemma run_keeps_pending ops s :
  forallb (fun op => negb (takes_output op)) ops = true ->
  exists added,
    Queue.pending (output_queue (run ops s))
    = Queue.pending (output_queue s) ++ added.
Proof.
  revert s; induction ops as [|op ops IH]; intros s H.
  - exists []. cbn. now rewrite app_nil_r.
  - cbn [forallb] in H. apply andb_true_iff in H as [H1 H2].
    apply negb_true_iff in H1.
    destruct (exec_op_keeps_pending op s H1) as [a1 E1].
    destruct (IH (fst (exec_op op s)) H2) as [a2 E2].
    exists (a1 ++ a2). rewrite run_cons, E2, E1. now rewrite app_assoc.
Qed.

Lemma exec_op_emitted_grows op s :
  exists added, emitted (fst (exec_op op s)) = emitted s ++ added.
Proof.
  destruct s as [sid [inp inl] [outp' outl] h c td sr r t].
  each_op op; session_cases; rewrite <- ?app_assoc;
    first [ eexists; reflexivity | exists []; now rewrite app_nil_r ].
Qed.

Lemma run_emitted_grows ops s :
  exists added, emitted (run ops s) = emitted s ++ added.
Proof.
  revert s; induction ops as [|op ops IH]; intros s.
  - exists []. cbn. now rewrite app_nil_r.
  - destruct (exec_op_emitted_grows op s) as [a1 E1].
    destruct (IH (fst (exec_op op s))) as [a2 E2].
    exists (a1 ++ a2). rewrite run_cons, E2, E1. now rewrite app_assoc.
Qed.

(** C7. [start] on a session that already has its task changes nothing.
    On a session without a task it first puts the greeting on the
    transcript and on the output queue, the task being still absent, then
    creates the task and yields; a second [start] is then without effect;
    the greeting is on record as emitted when [start] returns, and it is
    still pending, at the place it was put, as long as no client took
    events from the session during the yield. *)
Theorem start_is_idempotent (s : ConversationSession)
        (yielded again : list Op) :
  let greeting :=
    [(lit "type", lit "message"); (lit "role", GREETING_ROLE);
     (lit "content", GREETING_MESSAGE)] in
  (_task s <> None -> start again s = s)
  /\ (_task s = None ->
      let greeted :=
        _emit_message GREETING_ROLE GREETING_MESSAGE (lit "message") s in
      _task greeted = None
      /\ history greeted = history s ++ [greeting]
      /\ Queue.pending (output_queue greeted)
         = Queue.pending (output_queue s) ++ [greeting]
      /\ start yielded s = run yielded (set_task (Some TaskPending) greeted)
      /\ start again (start yielded s) = start yielded s
      /\ (exists more,
             emitted (start yielded s) = emitted s ++ greeting :: more)
      /\ (forallb (fun op => negb (takes_output op)) yielded = true ->
          exists more,
            Queue.pending (output_queue (start yielded s))
            = Queue.pending (output_queue s) ++ greeting :: more)).
Proof.
  intros greeting. split.
  - intros H. unfold start. destruct (_task s); [reflexivity | congruence].
  - intros H greeted.
    assert (Hstart : start yielded s
                     = run yielded (set_task (Some TaskPending) greeted)).
    { unfold start, start_begin. rewrite H. reflexivity. }
    split; [exact H|]. split; [reflexivity|]. split; [reflexivity|].
    split; [exact Hstart|]. split; [|split].
    + unfold start at 1.
      destruct (_task (start yielded s)) eqn:E; [reflexivity|].
      exfalso. rewrite Hstart in E.
      revert E. apply run_task_started. discriminate.
    + rewrite Hstart.
      destruct (run_emitted_grows yielded
                  (set_task (Some TaskPending) greeted)) as [more E].
      exists more. rewrite E. unfold emitted. cbn.
      now rewrite <- app_assoc.
    + intros Hy. rewrite Hstart.
      destruct (run_keeps_pending yielded
                  (set_task (Some TaskPending) greeted) Hy) as [more E].
      exists more. rewrite E. cbn. now rewrite <- app_assoc.
Qed.

(** ** Queue order, end to end *)

Lemma user_input_takes_oldest s line rest :
  task_pending s = true ->
  Queue.pending (input_queue s) = line :: rest ->
  exec_op OpUserInput s
  = (set_input_queue (Queue.Make rest (Queue.put_log (input_queue s))) s,
     {| to_client := []; to_engine := [line] |}).
Proof.
  intros Ht Hp. unfold exec_op, _user_input, Queue.get, Queue.get_nowait.
  rewrite Ht, Hp. reflexivity.
Qed.

(** An engine that asks once for each waiting line gets them all, oldest
    first. *)
Lemma engine_receives_all_waiting n s :
  task_pending s = true ->
  length (Queue.pending (input_queue s)) = n ->
  consumed (repeat OpUserInput n) s = Queue.pending (input_queue s)
  /\ Queue.pending (input_queue (run (repeat OpUserInput n) s)) = [].
Proof.
  revert s; induction n as [|n IH]; intros s Ht Hl.
  - destruct (Queue.pending (input_queue s)) eqn:Hp; [|discriminate Hl].
    split; [reflexivity | exact Hp].
  - destruct (Queue.pending (input_queue s)) as [|line rest] eqn:Hp;
      [discriminate Hl|].
    injection Hl as Hl.
    cbn [repeat consumed]. rewrite run_cons.
    rewrite (user_input_takes_oldest s line rest Ht Hp). cbn [fst to_engine].
    destruct (IH (set_input_queue
                    (Queue.Make rest (Queue.put_log (input_queue s))) s)
                 Ht Hl) as [A B].
    rewrite A. split; [reflexivity | exact B].
Qed.

(** C8. Along any run of a new session, the events handed to clients,
    followed by those still pending, are the events emitted, in the order
    of emission; the lines handed to the engine, followed by those still
    waiting, are the contents posted, in the order of posting; and
    [drain_output_nowait] always returns, with all pending events in queue
    order, and leaves none pending, so that a second drain returns the
    empty list.  The engine's input callback hands out the oldest waiting
    line and removes exactly that one, waits when there is none, and an
    engine that asks once for each waiting line receives them all in the
    order of posting. *)
Theorem queues_preserve_order (sid : str) (ops : list Op)
        (s : ConversationSession) :
  let s0 := new_session sid in
  delivered ops s0 ++ Queue.pending (output_queue (run ops s0))
  = emitted (run ops s0)
  /\ consumed ops s0 ++ Queue.pending (input_queue (run ops s0))
     = posted ops
  /\ (exists fuel,
         drain_loop fuel (output_queue s) []
         = Some (Queue.pending (output_queue s),
                 Queue.Make [] (Queue.put_log (output_queue s))))
  /\ drain_output_nowait s
     = (Queue.pending (output_queue s),
        set_output_queue
          (Queue.Make [] (Queue.put_log (output_queue s))) s)
  /\ fst (drain_output_nowait (snd (drain_output_nowait s))) = []
  /\ (forall line rest,
        Queue.pending (input_queue s) = line :: rest ->
        (exists s',
            _user_input s = Some (line, s')
            /\ Queue.pending (input_queue s') = rest)
        /\ (task_pending s = true ->
            to_engine (snd (exec_op OpUserInput s)) = [line]
            /\ Queue.pending (input_queue (fst (exec_op OpUserInput s)))
               = rest))
  /\ (Queue.pending (input_queue s) = [] -> _user_input s = None)
  /\ (task_pending s = true ->
      consumed (repeat OpUserInput (length (Queue.pending (input_queue s)))) s
      = Queue.pending (input_queue s)
      /\ Queue.pending
           (input_queue
              (run (repeat OpUserInput
                      (length (Queue.pending (input_queue s)))) s)) = []).
Proof.
  intros s0. split; [|split; [|split; [|split; [|split; [|split; [|split]]]]]].
  - apply (delivered_fifo ops s0 []). reflexivity.
  - rewrite consumed_fifo. reflexivity.
  - exists (S (length (Queue.pending (output_queue s)))).
    rewrite drain_loop_enough by lia. reflexivity.
  - apply drain_output_nowait_eq.
  - rewrite !drain_output_nowait_eq. reflexivity.
  - intros line rest Hp. split.
    + unfold _user_input, Queue.get, Queue.get_nowait. rewrite Hp.
      eexists. split; reflexivity.
    + intros Ht. rewrite (user_input_takes_oldest s line rest Ht Hp).
      split; reflexivity.
  - intros Hp. unfold _user_input, Queue.get, Queue.get_nowait.
    rewrite Hp. reflexivity.
  - intros Ht. now apply engine_receives_all_waiting.
Qed.

(** ** Monotone flags *)

Lemma drain_keeps_flags s :
  completed (snd (drain_output_nowait s)) = completed s
  /\ secret_revealed (snd (drain_output_nowait s)) = secret_revealed s.
Proof. rewrite drain_output_nowait_snd. split; reflexivity. Qed.

Lemma get_events_flags (mgr mgr' : gmap str ConversationSession)
      sid timeout waited r :
  get_events sid timeout waited mgr = (Ok r, mgr') ->
  exists s s',
    mgr !! sid = Some s /\ mgr' !! sid = Some s'
    /\ completed_flag r = completed s'
    /\ secret_unlocked r = secret_revealed s'
    /\ (completed s = true -> completed s' = true)
    /\ (secret_revealed s = true -> secret_revealed s' = true).
Proof.
  intros E0. pose proof (get_events_ok_in_bounds _ _ _ _ _ _ E0) as Hb.
  revert E0.
  destruct (mgr !! sid) as [s|] eqn:Hs.
  - rewrite (get_events_eq mgr sid s timeout waited Hs Hb). cbv zeta.
    destruct (drain_keeps_flags s) as [Dc Ds].
    destruct (negb _ && negb _); intros E; injection E as <- <-.
    + set (s2 := run waited (snd (drain_output_nowait s))).
      destruct (run_flags waited (snd (drain_output_nowait s)))
        as (H1 & _ & H3).
      fold s2 in H1, H3. rewrite Dc in H1. rewrite Ds in H3.
      destruct (drain_keeps_flags s2) as [Ec Es].
      exists s, (snd (drain_output_nowait s2)).
      split; [reflexivity|]. split; [apply lookup_insert_eq|].
      cbn [completed_flag secret_unlocked]. rewrite Ec, Es.
      repeat split; assumption.
    + exists s, (snd (drain_output_nowait s)).
      split; [reflexivity|]. split; [apply lookup_insert_eq|].
      cbn [completed_flag secret_unlocked]. rewrite Dc, Ds.
      repeat split; auto.
  - unfold get_events, get_session. cbv zeta. rewrite Hs, Hb. discriminate.
Qed.

(** C10. No run of a session's operations takes one of the three flags
    from true back to false; and when a poll has answered with a flag true,
    any later poll of that session, whatever happened to the session in
    between, answers with that flag true. *)
Theorem flags_are_monotone (s : ConversationSession) (ops : list Op) :
  (completed s = true -> completed (run ops s) = true)
  /\ (termination_detected s = true
      -> termination_detected (run ops s) = true)
  /\ (secret_revealed s = true -> secret_revealed (run ops s) = true)
  /\ (forall (mgr mgr1 mgr2 : gmap str ConversationSession)
             sid t1 w1 t2 w2 r1 r2 s1,
         get_events sid t1 w1 mgr = (Ok r1, mgr1) ->
         mgr1 !! sid = Some s1 ->
         get_events sid t2 w2 (<[sid := run ops s1]> mgr1) = (Ok r2, mgr2) ->
         (completed_flag r1 = true -> completed_flag r2 = true)
         /\ (secret_unlocked r1 = true -> secret_unlocked r2 = true)).
Proof.
  destruct (run_flags ops s) as (H1 & H2 & H3).
  split; [exact H1|]. split; [exact H2|]. split; [exact H3|].
  intros mgr mgr1 mgr2 sid t1 w1 t2 w2 r1 r2 s1 E1 Hs1 E2.
  destruct (get_events_flags _ _ _ _ _ _ E1)
    as (sa & sb & _ & Hb & Hc1 & Hu1 & _ & _).
  destruct (get_events_flags _ _ _ _ _ _ E2)
    as (sc & sd & Hc & _ & Hc2 & Hu2 & Kc & Ku).
  rewrite lookup_insert_eq in Hc. injection Hc as <-.
  rewrite Hs1 in Hb. injection Hb as <-.
  destruct (run_flags ops s1) as (R1 & _ & R3).
  rewrite Hc1, Hc2, Hu1, Hu2. split; intros K; auto.
Qed.


(** * Further properties of the session *)

(** ** Transcript and secret events *)

Ltac transcript_types :=
  unfold is_transcript, mentions_terminate; payload_types.

Lemma mentions_terminate_message src text :
  mentions_terminate
    [(lit "type", lit "message"); (lit "role", src); (lit "content", text)]
  = contains (lit "TERMINATE") text.
Proof. reflexivity. Qed.

Lemma exec_op_transcript op s :
  history s = List.filter is_transcript (emitted s) ->
  history (fst (exec_op op s))
  = List.filter is_transcript (emitted (fst (exec_op op s))).
Proof.
  destruct s as [sid [inp inl] [outp outl] h c td sr r t].
  each_op op; session_cases; rewrite ?filter_snoc; transcript_types;
    cbn [orb]; rewrite ?app_nil_r; intros H; rewrite <- ?H; reflexivity.
Qed.

(** X1. The transcript of a session is, at every moment, the list of the
    message and secret events that were put on its output queue, in the
    order of emission: status, input-required and agent events never enter
    it, and no client operation changes it. *)
Theorem transcript_is_emitted_messages (sid : str) (ops : list Op) :
  let s := run ops (new_session sid) in
  history s = List.filter is_transcript (emitted s).
Proof.
  cbv zeta. generalize (eq_refl : history (new_session sid)
                                  = List.filter is_transcript
                                      (emitted (new_session sid))).
  generalize (new_session sid). induction ops as [|op ops IH]; intros s H.
  - exact H.
  - rewrite run_cons. apply IH, exec_op_transcript, H.
Qed.

Lemma exec_op_secret_events op s :
  List.filter is_secret (emitted s)
  = (if secret_revealed s then [secret_event] else []) ->
  List.filter is_secret (emitted (fst (exec_op op s)))
  = (if secret_revealed (fst (exec_op op s)) then [secret_event] else []).
Proof.
  unfold secret_event.
  destruct s as [sid [inp inl] [outp outl] h c td sr r t].
  each_op op; session_cases; rewrite ?filter_snoc; payload_types;
    rewrite ?app_nil_r; intros H; rewrite ?H; reflexivity.
Qed.

(** X2. Whatever the engine and the clients do, the only event of type
    secret ever put on the output queue is the one built by the release
    check, with role system and the configured code as content, and it is
    there exactly when the secret-revealed flag is set: no chat message,
    agent event or status can pass for it. *)
Theorem secret_event_is_genuine (sid : str) (ops : list Op) :
  let s := run ops (new_session sid) in
  List.filter is_secret (emitted s)
  = if secret_revealed s then [secret_event] else [].
Proof.
  cbv zeta.
  generalize (eq_refl : List.filter is_secret (emitted (new_session sid))
                        = if secret_revealed (new_session sid)
                          then [secret_event] else []).
  generalize (new_session sid). induction ops as [|op ops IH]; intros s H.
  - exact H.
  - rewrite run_cons. apply IH, exec_op_secret_events, H.
Qed.

Lemma exec_op_evidence op s :
  (termination_detected s = true ->
   existsb mentions_terminate (history s) = true) ->
  termination_detected (fst (exec_op op s)) = true ->
  existsb mentions_terminate (history (fst (exec_op op s))) = true.
Proof.
  destruct s as [sid [inp inl] [outp outl] h c td sr r t].
  each_op op; session_cases; intros H K;
    rewrite ?existsb_app; cbn [existsb];
    rewrite ?orb_false_r, ?mentions_terminate_message;
    first [ discriminate K
          | exact (H K)
          | rewrite (H eq_refl); reflexivity
          | rewrite (H K); reflexivity
          | match goal with
            | E : contains _ _ = true |- _ => rewrite E; apply orb_true_r
            end ].
Qed.

(** X3. The termination-detected flag is never set without cause: whenever
    it is true, the transcript holds a chat message whose text contains the
    marker. *)
Theorem termination_has_transcript_evidence (sid : str) (ops : list Op) :
  let s := run ops (new_session sid) in
  termination_detected s = true ->
  existsb mentions_terminate (history s) = true.
Proof.
  cbv zeta.
  assert (H0 : termination_detected (new_session sid) = true ->
               existsb mentions_terminate (history (new_session sid)) = true)
    by discriminate.
  revert H0. generalize (new_session sid).
  induction ops as [|op ops IH]; intros s H.
  - exact H.
  - rewrite run_cons. apply IH. apply exec_op_evidence, H.
Qed.

(** ** The background task and the session's life *)

Lemma exec_op_done op s :
  _task s = Some TaskDone ->
  _task (fst (exec_op op s)) = Some TaskDone
  /\ emitted (fst (exec_op op s)) = emitted s
  /\ history (fst (exec_op op s)) = history s
  /\ completed (fst (exec_op op s)) = completed s
  /\ termination_detected (fst (exec_op op s)) = termination_detected s
  /\ secret_revealed (fst (exec_op op s)) = secret_revealed s
  /\ stop_reason (fst (exec_op op s)) = stop_reason s.
Proof.
  destruct s as [sid [inp inl] [outp outl] h c td sr r t].
  each_op op; session_cases; intros H; try discriminate H;
    repeat split; try reflexivity; exact H.
Qed.

(** X4. Once the background task has ended the session is at rest: no
    operation puts a further event on the output queue or on the
    transcript, and the flags and the stop reason keep their values, so
    that clients only collect what is still pending. *)
Theorem done_session_is_at_rest (s : ConversationSession) (ops : list Op) :
  _task s = Some TaskDone ->
  _task (run ops s) = Some TaskDone
  /\ emitted (run ops s) = emitted s
  /\ history (run ops s) = history s
  /\ completed (run ops s) = completed s
  /\ termination_detected (run ops s) = termination_detected s
  /\ secret_revealed (run ops s) = secret_revealed s
  /\ stop_reason (run ops s) = stop_reason s.
Proof.
  revert s; induction ops as [|op ops IH]; intros s H.
  - repeat split; try reflexivity; exact H.
  - rewrite run_cons.
    destruct (exec_op_done op s H) as (K0 & K1 & K2 & K3 & K4 & K5 & K6).
    destruct (IH _ K0) as (L0 & L1 & L2 & L3 & L4 & L5 & L6).
    rewrite L1, L2, L3, L4, L5, L6. repeat split; assumption.
Qed.


Lemma exec_op_task_consistent op s :
  task_consistent s -> task_consistent (fst (exec_op op s)).
Proof.
  unfold task_consistent.
  destruct s as [sid [inp inl] [outp outl] h c td sr r t].
  each_op op; session_cases; intros [H1 H2];
    (split; intros K;
     first [ reflexivity | discriminate K | discriminate
           | exact (H1 K) | exact (H2 K) | exact (H1 eq_refl)
           | exact (H2 eq_refl) | assumption | congruence ]).
Qed.

(** X5. Along any run of a new session, a finished background task means
    a completed session, and a session is never completed before its task
    was created: [completed] is only ever set by the pump. *)
Theorem completed_follows_the_task (sid : str) (ops : list Op) :
  let s := run ops (new_session sid) in
  (_task s = Some TaskDone -> completed s = true)
  /\ (completed s = true -> _task s <> None).
Proof.
  cbv zeta. change (task_consistent (run ops (new_session sid))).
  assert (H0 : task_consistent (new_session sid))
    by (split; intros K; discriminate K).
  revert H0. generalize (new_session sid).
  induction ops as [|op ops IH]; intros s H.
  - exact H.
  - rewrite run_cons. apply IH, exec_op_task_consistent, H.
Qed.

(** ** Stripping *)

Lemma lstrip_white (l x : str) :
  forallb isspace l = true -> lstrip (l ++ x) = lstrip x.
Proof.
  induction l as [|c l IH]; simpl; [reflexivity|].
  intros H. apply andb_true_iff in H as [Hc Hl]. rewrite Hc. now apply IH.
Qed.

Lemma forallb_rev {A} (f : A -> bool) l :
  forallb f l = true -> forallb f (rev l) = true.
Proof.
  rewrite !forallb_forall. intros H x Hx. apply H. now apply in_rev.
Qed.

Lemma rstrip_white (x r : str) :
  forallb isspace r = true -> rstrip (x ++ r) = rstrip x.
Proof.
  intros H. unfold rstrip. rewrite rev_app_distr.
  now rewrite lstrip_white by now apply forallb_rev.
Qed.

Lemma lstrip_fixed (t : str) :
  (forall c rest, t = c :: rest -> isspace c = false) -> lstrip t = t.
Proof.
  destruct t as [|c rest]; [reflexivity|].
  intros H. simpl. now rewrite (H c rest eq_refl).
Qed.

Lemma rstrip_fixed (t : str) :
  (forall front c, t = front ++ [c] -> isspace c = false) -> rstrip t = t.
Proof.
  intros H. unfold rstrip. rewrite lstrip_fixed; [apply rev_involutive|].
  intros c rest E. apply (H (rev rest) c).
  rewrite <- (rev_involutive t), E. reflexivity.
Qed.

Lemma strip_idempotent (s : str) : strip (strip s) = strip s.
Proof.
  destruct (strip_spec s) as (_ & Hh & Hl).
  unfold strip at 1. rewrite (lstrip_fixed _ Hh). now apply rstrip_fixed.
Qed.

Lemma strip_padded (l t r : str) :
  strip t = t ->
  forallb isspace l = true -> forallb isspace r = true ->
  strip (l ++ t ++ r) = t.
Proof.
  intros Ht Hl Hr. unfold strip. rewrite (lstrip_white l _ Hl).
  destruct t as [|c t'].
  - cbn [app]. rewrite <- (app_nil_r r), (lstrip_white r [] Hr). reflexivity.
  - destruct (strip_spec (c :: t')) as (_ & Hh & _).
    rewrite Ht in Hh. pose proof (Hh c t' eq_refl) as Hc.
    change ((c :: t') ++ r) with (c :: (t' ++ r)).
    rewrite (lstrip_nonspace c (t' ++ r) Hc).
    change (c :: (t' ++ r)) with ((c :: t') ++ r).
    rewrite (rstrip_white _ r Hr).
    unfold strip in Ht. rewrite (lstrip_nonspace c t' Hc) in Ht. exact Ht.
Qed.

Lemma strip_ignores_padding (l c r : str) :
  forallb isspace l = true -> forallb isspace r = true ->
  strip (l ++ c ++ r) = strip c.
Proof.
  intros Hl Hr.
  destruct (strip_spec c) as ((l' & r' & E & Hl' & Hr') & _).
  rewrite E at 1.
  replace (l ++ (l' ++ strip c ++ r') ++ r)
    with ((l ++ l') ++ strip c ++ (r' ++ r))
    by (now rewrite <- !app_assoc).
  apply strip_padded.
  - apply strip_idempotent.
  - rewrite forallb_app, Hl, Hl'. reflexivity.
  - rewrite forallb_app, Hr, Hr'. reflexivity.
Qed.

(** X6. White space around a posted message is invisible to the session:
    a content and the same content with white characters added in front
    and behind lead to the same answer and to the same registry, the line
    put on the input queue being the same. *)
Theorem padding_is_invisible
        (mgr : gmap str ConversationSession) (sid : str)
        (payload : MessageRequest) (l r : str) :
  forallb isspace l = true -> forallb isspace r = true ->
  strip (l ++ content payload ++ r) = strip (content payload)
  /\ send_message sid {| content := l ++ content payload ++ r |} mgr
     = send_message sid payload mgr.
Proof.
  intros Hl Hr.
  pose proof (strip_ignores_padding l (content payload) r Hl Hr) as E.
  split; [exact E|].
  unfold send_message. cbn [content]. rewrite E. reflexivity.
Qed.

(** ** Start-up configuration and the command-line variant *)

(** X7. The module's constants are obtained exactly when the environment
    gives both GEMINI_API_KEY and SECRETE_CODE a non-empty value, so the
    secret is never empty; a variable set to the empty string counts as
    missing, and when the key is missing the error names the key, whatever
    the other variable holds. *)
Theorem constants_need_both_variables (environ : gmap str str) :
  (forall api_key secret_code,
      load_constants environ = Value (api_key, secret_code)
      <-> environ !! lit "GEMINI_API_KEY" = Some api_key /\ api_key <> []
          /\ environ !! lit "SECRETE_CODE" = Some secret_code
          /\ secret_code <> [])
  /\ (environ !! lit "GEMINI_API_KEY" = None
      \/ environ !! lit "GEMINI_API_KEY" = Some [] ->
      load_constants environ
      = RuntimeError (lit "Missing required environment variable: "
                        ++ lit "GEMINI_API_KEY"))
  /\ (forall api_key, environ !! lit "GEMINI_API_KEY" = Some api_key ->
        api_key <> [] ->
        environ !! lit "SECRETE_CODE" = None
        \/ environ !! lit "SECRETE_CODE" = Some [] ->
        load_constants environ
        = RuntimeError (lit "Missing required environment variable: "
                          ++ lit "SECRETE_CODE")).
Proof.
  unfold load_constants, _load_env_variable.
  destruct (environ !! lit "GEMINI_API_KEY") as [[|a api]|] eqn:E1;
    destruct (environ !! lit "SECRETE_CODE") as [[|b sec]|] eqn:E2;
    cbn [truthy negb];
    (split; [intros api_key secret_code; split;
             [intros H; try discriminate H; injection H as <- <-;
              repeat split; congruence
             | intros (H1 & H2 & H3 & H4); congruence]
            | split; [intros [H|H]; try discriminate H; reflexivity
                     | intros api_key H1 H2 [H|H];
                       try discriminate H; try discriminate H1;
                       try reflexivity; congruence]]).
Qed.

Lemma contains_upper (marker s : str) :
  is_casing_of marker marker = true ->
  forallb is_ascii_upper marker = true ->
  contains marker s = true -> contains marker (upper s) = true.
Proof.
  intros Hc Hu H. apply contains_spec in H as (pre & post & ->).
  apply contains_spec. exists (upper pre), (upper post).
  rewrite !upper_app. now rewrite (upper_casing marker marker Hu Hc).
Qed.

(** X8. The command-line program releases the secret on a narrower
    condition than the backend: whenever [AI_yes.main] prints the secret,
    the result carries a string stop reason containing the marker as it is
    written, what it prints is the secret line alone, and the backend's
    check of that stop reason holds too, so that the same terminal result
    releases the secret there; a stop reason with the marker in lower case
    is accepted by the backend and not by the command-line program. *)
Theorem cli_release_implies_backend_release
        (secret_code : str) (attribute : option AI_yes.PyValue) :
  (AI_yes.main secret_code attribute <> [] ->
   exists reason,
     attribute = Some (AI_yes.PyStr reason)
     /\ contains (lit "TERMINATE") reason = true
     /\ AI_yes.main secret_code attribute
        = [lit "Secret Code: " ++ secret_code]
     /\ stop_reason_has_marker (Some reason) = true
     /\ forall s,
          secret_revealed (_run_item (TaskResult (Some reason)) s) = true)
  /\ AI_yes.main secret_code (Some (AI_yes.PyStr (lit "terminate"))) = []
  /\ stop_reason_has_marker (Some (lit "terminate")) = true.
Proof.
  split; [|split].
  - unfold AI_yes.main, AI_yes.getattr_stop_reason.
    destruct attribute as [[|reason|]|]; try congruence.
    + destruct (contains (lit "TERMINATE") reason) eqn:E; [|congruence].
      intros _. exists reason.
      assert (M : stop_reason_has_marker (Some reason) = true).
      { unfold stop_reason_has_marker. apply andb_true_iff. split.
        - destruct reason; [discriminate E | reflexivity].
        - apply contains_upper; [reflexivity | reflexivity | exact E]. }
      split; [reflexivity|]. split; [exact E|].
      split; [reflexivity|]. split; [exact M|].
      intros [sid [inp inl] [outp outl] h c td sr r t].
      revert M. generalize reason. intros reason' M.
      session_eval. rewrite M, orb_true_r. destruct sr; reflexivity.
    + change (contains (lit "TERMINATE") []) with false. congruence.
  - reflexivity.
  - apply (stop_reason_any_casing (lit "terminate") [] []). reflexivity.
Qed.

(** ** The registry and the handlers *)

Lemma exec_op_session_id op s : session_id (fst (exec_op op s)) = session_id s.
Proof.
  destruct s as [sid [inp inl] [outp outl] h c td sr r t].
  each_op op; session_cases; reflexivity.
Qed.

Lemma run_session_id ops s : session_id (run ops s) = session_id s.
Proof.
  revert s; induction ops as [|op ops IH]; intros s; [reflexivity|].
  rewrite run_cons, IH. apply exec_op_session_id.
Qed.

Lemma get_events_registered (mgr : gmap str ConversationSession)
      sid s timeout waited :
  mgr !! sid = Some s ->
  timeout_in_bounds (default timeout_default timeout) = true ->
  exists r s',
    get_events sid timeout waited mgr = (Ok r, <[sid := s']> mgr)
    /\ Queue.pending (output_queue s') = []
    /\ snd (drain_output_nowait s') = s'
    /\ completed_flag r = completed s'
    /\ secret_unlocked r = secret_revealed s'.
Proof.
  intros Hs Hb.
  rewrite (get_events_eq mgr sid s timeout waited Hs Hb). cbv zeta.
  destruct (negb _ && negb _).
  - eexists _, _. split; [reflexivity|].
    rewrite !drain_output_nowait_snd. repeat split.
  - eexists _, _. split; [reflexivity|].
    rewrite !drain_output_nowait_snd. repeat split.
Qed.

(** X9. The handlers act on one session only: posting to a session,
    polling it or creating it leaves every session registered under
    another identifier as it was, and posting and polling neither add an
    entry to the registry nor remove one. *)
Theorem handlers_touch_one_session
        (mgr : gmap str ConversationSession) (sid other : str)
        (payload : MessageRequest) (timeout : option Q)
        (waited yielded : list Op) :
  (other <> sid ->
   snd (send_message sid payload mgr) !! other = mgr !! other
   /\ snd (get_events sid timeout waited mgr) !! other = mgr !! other
   /\ snd (start_session sid yielded mgr) !! other = mgr !! other)
  /\ dom (snd (send_message sid payload mgr)) = dom mgr
  /\ dom (snd (get_events sid timeout waited mgr)) = dom mgr.
Proof.
  assert (Hdom : forall s s', mgr !! sid = Some s ->
                              dom (<[sid := s']> mgr) = dom mgr).
  { intros s s' Hs. rewrite dom_insert_L.
    assert (Hin : sid ∈ dom mgr) by (apply elem_of_dom; eauto).
    apply subseteq_union_1_L, singleton_subseteq_l, Hin. }
  assert (Hget : forall s, mgr !! sid = Some s ->
                   snd (get_events sid timeout waited mgr) = mgr
                   \/ exists s', snd (get_events sid timeout waited mgr)
                                 = <[sid := s']> mgr).
  { intros s Hs.
    destruct (timeout_in_bounds (default timeout_default timeout)) eqn:Hb.
    - destruct (get_events_registered mgr sid s timeout waited Hs Hb)
        as (r & s' & E & _). right. exists s'. rewrite E. reflexivity.
    - left. rewrite (get_events_out_of_bounds mgr sid timeout waited Hb).
      reflexivity. }
  assert (Hnone : mgr !! sid = None ->
                  snd (get_events sid timeout waited mgr) = mgr).
  { intros Hs. unfold get_events, get_session. cbv zeta. rewrite Hs.
    destruct (negb _); reflexivity. }
  split; [intros Hne; split; [|split] | split].
  - unfold send_message, get_session.
    destruct (mgr !! sid) as [s|]; [|reflexivity].
    destruct (negb _); [reflexivity|].
    cbn [snd]. now apply lookup_insert_ne.
  - destruct (mgr !! sid) as [s|] eqn:Hs.
    + destruct (Hget s eq_refl) as [E | [s' E]]; rewrite E;
        [reflexivity | now apply lookup_insert_ne].
    + now rewrite (Hnone eq_refl).
  - unfold start_session, create_session.
    destruct (drain_output_nowait _) as [evs s']. cbn [snd].
    rewrite !lookup_insert_ne by congruence. reflexivity.
  - unfold send_message, get_session.
    destruct (mgr !! sid) as [s|] eqn:Hs; [|reflexivity].
    destruct (negb _); [reflexivity|].
    cbn [snd]. now apply (Hdom s).
  - destruct (mgr !! sid) as [s|] eqn:Hs.
    + destruct (Hget s eq_refl) as [E | [s' E]]; rewrite E;
        [reflexivity | now apply (Hdom s)].
    + now rewrite (Hnone eq_refl).
Qed.

(** X10. Creating a session registers, under the identifier it answers
    with, a session that has its task and nothing pending, whatever was
    registered under that identifier before; the answer carries that
    session's flags; its events begin with the greeting as long as no
    client took events during the yield of [start]; and the two other
    endpoints then know the identifier: a message that is not blank is
    accepted and a poll with a timeout within the declared bounds
    answers. *)
Theorem start_session_opens_a_session
        (mgr : gmap str ConversationSession) (sid : str)
        (yielded : list Op) :
  let resp := fst (start_session sid yielded mgr) in
  let mgr' := snd (start_session sid yielded mgr) in
  resp_session_id resp = sid
  /\ (exists s',
         mgr' !! sid = Some s'
         /\ s' = snd (drain_output_nowait (start yielded (new_session sid)))
         /\ session_id s' = sid /\ _task s' <> None
         /\ Queue.pending (output_queue s') = []
         /\ resp_completed resp = completed s'
         /\ resp_secret_unlocked resp = secret_revealed s')
  /\ (forallb leaves_output yielded = true ->
      exists more,
        resp_events resp
        = [(lit "type", lit "message"); (lit "role", GREETING_ROLE);
           (lit "content", GREETING_MESSAGE)] :: more)
  /\ (forall payload, strip (content payload) <> [] ->
        fst (send_message sid payload mgr')
        = Ok [(lit "status", lit "accepted")])
  /\ (forall timeout waited,
        (0 <= default timeout_default timeout <= 30)%Q ->
        exists r, fst (get_events sid timeout waited mgr') = Ok r).
Proof.
  cbv zeta. unfold start_session, create_session.
  set (started := start yielded (new_session sid)).
  rewrite (drain_output_nowait_eq started). cbn [fst snd].
  rewrite <- drain_output_nowait_snd.
  set (s' := snd (drain_output_nowait started)).
  assert (Hstarted : started
                     = run yielded (start_begin (new_session sid)))
    by reflexivity.
  assert (Hl : (<[sid := s']> (<[sid := started]> mgr)) !! sid = Some s')
    by apply lookup_insert_eq.
  assert (Hid : session_id s' = sid).
  { subst s'. rewrite drain_output_nowait_snd.
    cbn [session_id set_output_queue]. rewrite Hstarted, run_session_id.
    reflexivity. }
  split; [exact Hid|]. split; [|split; [|split]].
  - exists s'. split; [exact Hl|]. split; [reflexivity|].
    split; [exact Hid|]. split.
    + subst s'. rewrite drain_output_nowait_snd. cbn [_task set_output_queue].
      rewrite Hstarted. apply run_task_started. discriminate.
    + subst s'. rewrite drain_output_nowait_snd. repeat split.
  - intros Hy.
    destruct (run_keeps_pending yielded (start_begin (new_session sid)) Hy)
      as [more E].
    exists more. rewrite Hstarted, E. reflexivity.
  - intros payload Hne. unfold send_message, get_session. rewrite Hl.
    destruct (strip (content payload)); [congruence | reflexivity].
  - intros timeout waited Hr. apply timeout_in_bounds_iff in Hr.
    destruct (get_events_registered _ sid s' timeout waited Hl Hr)
      as (r & s'' & E & _).
    exists r. rewrite E. reflexivity.
Qed.

(** X11. A poll with a timeout within the declared bounds leaves nothing
    pending, so every event is handed out once: a second such poll of the
    same session, nothing having happened in between, answers with no
    event and with the same two flags, and leaves the registry as the
    first poll left it. *)
Theorem second_poll_is_empty
        (mgr : gmap str ConversationSession) (sid : str)
        (s : ConversationSession) (timeout again : option Q)
        (waited : list Op) :
  mgr !! sid = Some s ->
  (0 <= default timeout_default timeout <= 30)%Q ->
  (0 <= default timeout_default again <= 30)%Q ->
  exists r mgr',
    get_events sid timeout waited mgr = (Ok r, mgr')
    /\ (exists s', mgr' !! sid = Some s'
                   /\ Queue.pending (output_queue s') = [])
    /\ get_events sid again [] mgr'
       = (Ok {| events := [];
                completed_flag := completed_flag r;
                secret_unlocked := secret_unlocked r |}, mgr').
Proof.
  intros Hs Hr1 Hr2.
  apply timeout_in_bounds_iff in Hr1. apply timeout_in_bounds_iff in Hr2.
  destruct (get_events_registered mgr sid s timeout waited Hs Hr1)
    as (r & s' & E & Hp & Hd & Hc & Hu).
  exists r, (<[sid := s']> mgr). split; [exact E|].
  assert (Hl : (<[sid := s']> mgr) !! sid = Some s')
    by apply lookup_insert_eq.
  split; [exists s'; split; [exact Hl | exact Hp]|].
  rewrite (get_events_eq _ sid s' again [] Hl Hr2). cbv zeta.
  rewrite Hd, Hp. change (run [] s') with s'. rewrite Hd, Hp, Hc, Hu.
  rewrite insert_insert_eq.
  destruct (negb _ && negb _); reflexivity.
Qed.

(** ** The secret reaches the client no later than the flag *)




End Gatekeeper.

(** * The properties at concrete inputs *)



(** A stop reason that spells the marker in mixed case. *)
Lemma marker_checks_differ_in_case_witness :
  is_casing_of (lit "Terminate") (lit "TERMINATE") = true
  /\ stop_reason_has_marker keep_code_point
       (Some (lit "Text '" ++ lit "Terminate" ++ lit "' mentioned")) = true.
Proof.
  assert (H : is_casing_of (lit "Terminate") (lit "TERMINATE") = true)
    by reflexivity.
  split; [exact H|].
  destruct (marker_checks_differ_in_case demo_secret keep_code_point)
    as (_ & _ & K & _).
  exact (proj1 (K (lit "Terminate") (lit "Text '") (lit "' mentioned")
                  (new_session []) H)).
Defined.

(** C3 fails as stated: a run in which the engine delivers its terminal
    result and the stream then ends completes the session without any
    status event having been put on the output queue. *)
Lemma terminal_result_run_emits_no_status :
  let s := start_begin (new_session (lit "s1")) in
  let s' :=
    _run demo_secret keep_code_point
      [TaskResult (Some (lit "Maximum number of turns 20 reached."))]
      StopAsyncIteration s in
  completed s' = true /\ existsb is_status (emitted s') = false.
Proof. vm_compute. split; reflexivity. Qed.

(** A long poll on a session with nothing pending and nothing arriving. *)
Lemma get_events_long_poll_witness :
  let sid := lit "s1" in
  let s := snd (drain_output_nowait (start_begin (new_session sid))) in
  let mgr : gmap str ConversationSession := <[sid := s]> ∅ in
  mgr !! sid = Some s
  /\ (0 <= default timeout_default (Some 5%Q) <= 30)%Q
  /\ fst (get_events demo_secret keep_code_point sid (Some 5%Q) [] mgr)
     = Ok {| events := []; completed_flag := false;
             secret_unlocked := false |}.
Proof.
  intros sid s mgr.
  assert (Hs : mgr !! sid = Some s) by apply lookup_insert_eq.
  assert (Hq : (0 <= default timeout_default (Some 5%Q) <= 30)%Q)
    by (split; discriminate).
  split; [exact Hs|]. split; [exact Hq|].
  pose proof (get_events_long_poll demo_secret keep_code_point mgr sid s
                (Some 5%Q) [] Hs Hq) as H.
  cbv zeta in H. destruct H as (_ & _ & H).
  specialize (H eq_refl eq_refl).
  change (Queue.get
            (output_queue
               (run demo_secret keep_code_point []
                  (snd (drain_output_nowait s)))))
    with (@None (Payload * Queue.t Payload)) in H.
  rewrite H. reflexivity.
Defined.

(** A message of blanks only. *)
Lemma send_message_validates_witness :
  let sid := lit "s1" in
  let s := start_begin (new_session sid) in
  let mgr : gmap str ConversationSession := <[sid := s]> ∅ in
  mgr !! sid = Some s
  /\ strip (content {| content := lit "   " |}) = []
  /\ send_message sid {| content := lit "   " |} mgr
     = (Raise {| status_code := 400;
                 detail := lit "Message cannot be empty" |}, mgr).
Proof.
  intros sid s mgr.
  assert (Hs : mgr !! sid = Some s) by apply lookup_insert_eq.
  assert (He : strip (content {| content := lit "   " |}) = [])
    by reflexivity.
  split; [exact Hs|]. split; [exact He|].
  exact (proj1 (send_message_validates mgr sid s
                  {| content := lit "   " |} Hs) He).
Defined.



(** A first [start], followed by a second one. *)
Lemma start_is_idempotent_witness :
  let s := new_session (lit "s1") in
  let yielded := [OpRunItem UserInputRequestedEvent] in
  let started := start demo_secret keep_code_point yielded s in
  _task s = None
  /\ forallb (fun op => negb (takes_output op)) yielded = true
  /\ _task started <> None
  /\ start demo_secret keep_code_point [] started = started
  /\ exists more,
       Queue.pending (output_queue started)
       = Queue.pending (output_queue s)
           ++ [(lit "type", lit "message"); (lit "role", GREETING_ROLE);
               (lit "content", GREETING_MESSAGE)] :: more.
Proof.
  intros s yielded started.
  assert (H0 : _task s = None) by reflexivity.
  assert (Hy : forallb (fun op => negb (takes_output op)) yielded = true)
    by reflexivity.
  assert (H1 : _task started <> None) by (vm_compute; discriminate).
  split; [exact H0|]. split; [exact Hy|]. split; [exact H1|].
  split.
  - exact (proj1 (start_is_idempotent demo_secret keep_code_point
                    started [] []) H1).
  - pose proof (start_is_idempotent demo_secret keep_code_point
                  s yielded []) as H.
    cbv zeta in H. destruct H as [_ H].
    destruct (H H0) as (_ & _ & _ & _ & _ & _ & K).
    exact (K Hy).
Defined.

(** Two lines posted to a started session, and an engine asking twice. *)
Lemma queues_preserve_order_witness :
  let s :=
    run demo_secret keep_code_point
      [OpStart; OpEnqueueUserMessage (lit "one");
       OpEnqueueUserMessage (lit "two")] (new_session (lit "s1")) in
  task_pending s = true
  /\ consumed demo_secret keep_code_point [OpUserInput; OpUserInput] s
     = [lit "one"; lit "two"].
Proof.
  intros s.
  assert (Ht : task_pending s = true) by reflexivity.
  split; [exact Ht|].
  pose proof (queues_preserve_order demo_secret keep_code_point
                (lit "s1") [] s) as H.
  cbv zeta in H. destruct H as (_ & _ & _ & _ & _ & _ & _ & H).
  exact (proj1 (H Ht)).
Defined.

(** A message with blanks around it. *)
Lemma send_message_enqueues_stripped_witness :
  let sid := lit "s1" in
  let s := start_begin (new_session sid) in
  let mgr : gmap str ConversationSession := <[sid := s]> ∅ in
  let payload := {| content := lit "  hi there  " |} in
  mgr !! sid = Some s
  /\ strip (content payload) <> []
  /\ strip (content payload) = lit "hi there"
  /\ exists s',
       snd (send_message sid payload mgr) !! sid = Some s'
       /\ Queue.pending (input_queue s') = [lit "hi there"].
Proof.
  intros sid s mgr payload.
  assert (Hs : mgr !! sid = Some s) by apply lookup_insert_eq.
  assert (Hne : strip (content payload) <> []) by (vm_compute; discriminate).
  split; [exact Hs|]. split; [exact Hne|]. split; [reflexivity|].
  pose proof (send_message_enqueues_stripped demo_secret keep_code_point
                mgr sid s payload Hs Hne) as H.
  cbv zeta in H. destruct H as (s' & K1 & _ & K3 & _).
  exists s'. split; [exact K1|]. rewrite K3. reflexivity.
Defined.

(** A completed session stays completed. *)
Lemma flags_are_monotone_witness :
  let s :=
    run demo_secret keep_code_point
      [OpStart; OpRunItem (TaskResult None); OpRunFinish StopAsyncIteration]
      (new_session (lit "s1")) in
  let later := [OpDrainOutputNowait; OpEnqueueUserMessage (lit "again")] in
  completed s = true
  /\ completed (run demo_secret keep_code_point later s) = true.
Proof.
  intros s later.
  assert (H : completed s = true) by reflexivity.
  split; [exact H|].
  exact (proj1 (flags_are_monotone demo_secret keep_code_point s later) H).
Defined.

(** * The further properties at concrete inputs *)

(** The assistant says the marker. *)
Lemma termination_has_transcript_evidence_witness :
  let ops :=
    [OpStart;
     OpRunItem (ChatMessage {| source := lit "unhelpful_assistant";
                               to_text := lit "yes TERMINATE";
                               is_MultiModalMessage := false |})] in
  let s := run demo_secret keep_code_point ops (new_session (lit "s1")) in
  termination_detected s = true
  /\ existsb mentions_terminate (history s) = true.
Proof.
  intros ops s.
  assert (H : termination_detected s = true) by reflexivity.
  split; [exact H|].
  exact (termination_has_transcript_evidence demo_secret keep_code_point
           (lit "s1") ops H).
Defined.

(** A finished session ignores what the engine might still send. *)
Lemma done_session_is_at_rest_witness :
  let s :=
    run demo_secret keep_code_point
      [OpStart; OpRunItem (TaskResult None); OpRunFinish StopAsyncIteration]
      (new_session (lit "s1")) in
  let later :=
    [OpRunItem (ChatMessage {| source := lit "unhelpful_assistant";
                               to_text := lit "yes TERMINATE";
                               is_MultiModalMessage := false |});
     OpDrainOutputNowait] in
  _task s = Some TaskDone
  /\ emitted (run demo_secret keep_code_point later s) = emitted s.
Proof.
  intros s later.
  assert (H : _task s = Some TaskDone) by reflexivity.
  split; [exact H|].
  exact (proj1 (proj2 (done_session_is_at_rest demo_secret keep_code_point
                         s later H))).
Defined.

(** A pump that fails at once. *)
Lemma completed_follows_the_task_witness :
  let ops := [OpStart; OpRunFinish (RaisedException (lit "boom"))] in
  let s := run demo_secret keep_code_point ops (new_session (lit "s1")) in
  _task s = Some TaskDone /\ completed s = true.
Proof.
  intros ops s.
  assert (H : _task s = Some TaskDone) by reflexivity.
  split; [exact H|].
  exact (proj1 (completed_follows_the_task demo_secret keep_code_point
                  (lit "s1") ops) H).
Defined.

(** Blanks in front and behind. *)
Lemma padding_is_invisible_witness :
  forallb isspace (lit "  ") = true
  /\ forallb isspace (lit " ") = true
  /\ strip (lit "  " ++ content {| content := lit "hi" |} ++ lit " ")
     = strip (content {| content := lit "hi" |}).
Proof.
  assert (Hl : forallb isspace (lit "  ") = true) by reflexivity.
  assert (Hr : forallb isspace (lit " ") = true) by reflexivity.
  split; [exact Hl|]. split; [exact Hr|].
  exact (proj1 (padding_is_invisible ∅ (lit "s1") {| content := lit "hi" |}
                  (lit "  ") (lit " ") Hl Hr)).
Defined.

(** An empty environment. *)
Lemma constants_need_both_variables_witness :
  (∅ : gmap str str) !! lit "GEMINI_API_KEY" = None
  /\ load_constants ∅
     = RuntimeError (lit "Missing required environment variable: "
                       ++ lit "GEMINI_API_KEY").
Proof.
  assert (H : (∅ : gmap str str) !! lit "GEMINI_API_KEY" = None)
    by apply lookup_empty.
  split; [exact H|].
  exact (proj1 (proj2 (constants_need_both_variables ∅)) (or_introl H)).
Defined.

(** The stop reason of the engine's text-mention condition. *)
Lemma cli_release_implies_backend_release_witness :
  let attribute :=
    Some (AI_yes.PyStr (lit "Text 'TERMINATE' mentioned")) in
  AI_yes.main demo_secret attribute <> []
  /\ exists reason,
       attribute = Some (AI_yes.PyStr reason)
       /\ stop_reason_has_marker keep_code_point (Some reason) = true.
Proof.
  intros attribute.
  assert (H : AI_yes.main demo_secret attribute <> [])
    by (vm_compute; discriminate).
  split; [exact H|].
  destruct (proj1 (cli_release_implies_backend_release demo_secret
                     keep_code_point demo_secret attribute) H)
    as (reason & Ha & _ & _ & M & _).
  exists reason. split; [exact Ha | exact M].
Defined.

(** Two sessions, a message to one of them. *)
Lemma handlers_touch_one_session_witness :
  let mgr : gmap str ConversationSession :=
    <[lit "a" := start_begin (new_session (lit "a"))]>
      (<[lit "b" := start_begin (new_session (lit "b"))]> ∅) in
  lit "b" <> lit "a"
  /\ snd (send_message (lit "a") {| content := lit "hi" |} mgr) !! lit "b"
     = mgr !! lit "b".
Proof.
  intros mgr.
  assert (H : lit "b" <> lit "a") by (vm_compute; discriminate).
  split; [exact H|].
  exact (proj1 (proj1 (handlers_touch_one_session demo_secret keep_code_point
                         mgr (lit "a") (lit "b") {| content := lit "hi" |}
                         None [] []) H)).
Defined.

(** A session created while the pump gets as far as asking for input. *)
Lemma start_session_opens_a_session_witness :
  let yielded := [OpRunItem UserInputRequestedEvent] in
  forallb leaves_output yielded = true
  /\ exists more,
       resp_events
         (fst (start_session demo_secret keep_code_point (lit "s1")
                 yielded ∅))
       = [(lit "type", lit "message"); (lit "role", GREETING_ROLE);
          (lit "content", GREETING_MESSAGE)] :: more.
Proof.
  intros yielded.
  assert (H : forallb leaves_output yielded = true) by reflexivity.
  split; [exact H|].
  pose proof (start_session_opens_a_session demo_secret keep_code_point
                ∅ (lit "s1") yielded) as K.
  cbv zeta in K. destruct K as (_ & _ & K & _). exact (K H).
Defined.

(** Two polls in a row. *)
Lemma second_poll_is_empty_witness :
  let sid := lit "s1" in
  let s := start_begin (new_session sid) in
  let mgr : gmap str ConversationSession := <[sid := s]> ∅ in
  mgr !! sid = Some s
  /\ exists r mgr',
       get_events demo_secret keep_code_point sid None [] mgr = (Ok r, mgr')
       /\ fst (get_events demo_secret keep_code_point sid None [] mgr')
          = Ok {| events := [];
                  completed_flag := completed_flag r;
                  secret_unlocked := secret_unlocked r |}.
Proof.
  intros sid s mgr.
  assert (Hs : mgr !! sid = Some s) by apply lookup_insert_eq.
  split; [exact Hs|].
  assert (Hr : (0 <= default timeout_default None <= 30)%Q)
    by (split; discriminate).
  destruct (second_poll_is_empty demo_secret keep_code_point mgr sid s
              None None [] Hs Hr Hr) as (r & mgr' & E1 & _ & E2).
  exists r, mgr'. split; [exact E1|]. rewrite E2. reflexivity.
Defined.

